(** * The pattern-action interpreter of [pkg/awk/awk.go]

    A shallow embedding of the record-oriented interpreter: the structural
    parser ([parseProgram], [parseRule], [parseAction], [parseStatement],
    [parsePrint], [parseExpression]), the evaluator ([Evaluate], [GetValue],
    the [Execute] methods) and the driver loop ([processInput]).

    Go strings are byte strings and are modelled by [string] (a list of
    8-bit characters); [int] is the 64-bit signed integer, modelled in [Z]
    with its wrap-around written out; [float64] is IEEE 754 binary64,
    modelled by the primitive [float]. *)

From Stdlib Require Import ZArith List Ascii String Bool Lia.
From Stdlib Require Import Floats.PrimFloat.
From Stdlib Require Import DecimalString DecimalNat DecimalFacts.
From stdpp Require Import gmap.
From stdpp Require strings.

Import ListNotations.
Local Open Scope string_scope.
Local Open Scope Z_scope.

(** ** Bytes and slices *)

Definition code (c : ascii) : N := N_of_ascii c.

Definition len (s : string) : Z := Z.of_nat (String.length s).

Fixpoint sdrop (n : nat) (s : string) : string :=
  match n, s with
  | O, _ => s
  | S _, EmptyString => EmptyString
  | S k, String _ r => sdrop k r
  end.

Fixpoint stake (n : nat) (s : string) : string :=
  match n, s with
  | O, _ => EmptyString
  | S _, EmptyString => EmptyString
  | S k, String c r => String c (stake k r)
  end.

(** [sliceFrom s lo] is [s[lo:]] and [slice s lo hi] is [s[lo:hi]]. *)
Definition sliceFrom (s : string) (lo : Z) : string := sdrop (Z.to_nat lo) s.

Definition slice (s : string) (lo hi : Z) : string :=
  stake (Z.to_nat (hi - lo)) (sdrop (Z.to_nat lo) s).

Fixpoint revOnto (s acc : string) : string :=
  match s with
  | EmptyString => acc
  | String c r => revOnto r (String c acc)
  end.

Definition srev (s : string) : string := revOnto s EmptyString.

(** ** Package unicode/utf8 and unicode.IsSpace, on encoded bytes *)

Module utf8.

(** Width of the encoding at the head of [s] as [DecodeRuneInString] reports
    it: an invalid or truncated encoding has width 1. *)
Definition isCont (c : ascii) : bool := (128 <=? code c)%N && (code c <=? 191)%N.

Definition second (lo hi : N) (c : ascii) : bool := (lo <=? code c)%N && (code c <=? hi)%N.

Definition runeLen (s : string) : nat :=
  match s with
  | EmptyString => 0%nat
  | String c0 r0 =>
    let b0 := code c0 in
    if (b0 <? 128)%N then 1%nat
    else if (b0 <? 194)%N then 1%nat
    else if (b0 <? 224)%N then
      match r0 with
      | String c1 _ => if isCont c1 then 2%nat else 1%nat
      | _ => 1%nat
      end
    else if (b0 <? 240)%N then
      match r0 with
      | String c1 (String c2 _) =>
        let ok1 := if (b0 =? 224)%N then second 160 191 c1
                   else if (b0 =? 237)%N then second 128 159 c1
                   else isCont c1 in
        if ok1 && isCont c2 then 3%nat else 1%nat
      | _ => 1%nat
      end
    else if (b0 <? 245)%N then
      match r0 with
      | String c1 (String c2 (String c3 _)) =>
        let ok1 := if (b0 =? 240)%N then second 144 191 c1
                   else if (b0 =? 244)%N then second 128 143 c1
                   else isCont c1 in
        if ok1 && isCont c2 && isCont c3 then 4%nat else 1%nat
      | _ => 1%nat
      end
    else 1%nat
  end.

End utf8.

Module unicode.

(** The table [asciiSpace] of package strings: tab, LF, VT, FF, CR, space. *)
Definition isAsciiSpace (c : ascii) : bool :=
  let n := code c in
  (n =? 9)%N || (n =? 10)%N || (n =? 11)%N || (n =? 12)%N || (n =? 13)%N || (n =? 32)%N.

(** U+0085 and U+00A0, encoded on two bytes. *)
Definition isSpace2 (b0 b1 : N) : bool :=
  (b0 =? 194)%N && ((b1 =? 133)%N || (b1 =? 160)%N).

(** U+1680, U+2000..U+200A, U+2028, U+2029, U+202F, U+205F and U+3000,
    encoded on three bytes. *)
Definition isSpace3 (b0 b1 b2 : N) : bool :=
  ((b0 =? 225)%N && (b1 =? 154)%N && (b2 =? 128)%N)
  || ((b0 =? 226)%N && (b1 =? 128)%N
      && (((128 <=? b2)%N && (b2 <=? 138)%N) || (b2 =? 168)%N || (b2 =? 169)%N || (b2 =? 175)%N))
  || ((b0 =? 226)%N && (b1 =? 129)%N && (b2 =? 159)%N)
  || ((b0 =? 227)%N && (b1 =? 128)%N && (b2 =? 128)%N).

(** Number of bytes of the white-space character ([unicode.IsSpace]) encoded
    at the head of [s]; 0 when [s] does not start with white space. *)
Definition spaceLen (s : string) : nat :=
  match s with
  | EmptyString => 0%nat
  | String c0 r0 =>
    if isAsciiSpace c0 then 1%nat
    else match r0 with
    | EmptyString => 0%nat
    | String c1 r1 =>
      if isSpace2 (code c0) (code c1) then 2%nat
      else match r1 with
      | EmptyString => 0%nat
      | String c2 _ => if isSpace3 (code c0) (code c1) (code c2) then 3%nat else 0%nat
      end
    end
  end.

(** The same for the white-space character that ends a string, read on the
    reversed string (the last byte first), as [DecodeLastRuneInString] does. *)
Definition spaceLenRev (r : string) : nat :=
  match r with
  | EmptyString => 0%nat
  | String c0 r0 =>
    if isAsciiSpace c0 then 1%nat
    else match r0 with
    | EmptyString => 0%nat
    | String c1 r1 =>
      if isSpace2 (code c1) (code c0) then 2%nat
      else match r1 with
      | EmptyString => 0%nat
      | String c2 _ => if isSpace3 (code c2) (code c1) (code c0) then 3%nat else 0%nat
      end
    end
  end.

End unicode.

(** ** Package strings *)

Module strings.

Fixpoint HasPrefix (s p : string) {struct p} : bool :=
  match p with
  | EmptyString => true
  | String a p' =>
    match s with
    | EmptyString => false
    | String b s' => Ascii.eqb a b && HasPrefix s' p'
    end
  end.

Definition HasSuffix (s suffix : string) : bool := HasPrefix (srev s) (srev suffix).

(** [Index s sep] is the byte offset of the first instance of [sep] in [s],
    or -1. *)
Fixpoint Index (s sep : string) : Z :=
  if HasPrefix s sep then 0
  else match s with
  | EmptyString => -1
  | String _ r => let i := Index r sep in if i <? 0 then -1 else i + 1
  end.

Definition Contains (s substr : string) : bool := 0 <=? Index s substr.

Definition TrimPrefix (s p : string) : string :=
  if HasPrefix s p then sdrop (String.length p) s else s.

(** Leading white space removed ([TrimLeftFunc] with [unicode.IsSpace]); every
    step removes at least one byte, so [length s] steps are enough. *)
Fixpoint trimLeftFuel (fuel : nat) (s : string) : string :=
  match fuel with
  | O => s
  | S f =>
    match unicode.spaceLen s with
    | O => s
    | S k => trimLeftFuel f (sdrop (S k) s)
    end
  end.

Definition trimLeft (s : string) : string := trimLeftFuel (String.length s) s.

Fixpoint trimRightRevFuel (fuel : nat) (r : string) : string :=
  match fuel with
  | O => r
  | S f =>
    match unicode.spaceLenRev r with
    | O => r
    | S k => trimRightRevFuel f (sdrop (S k) r)
    end
  end.

Definition trimRight (s : string) : string :=
  srev (trimRightRevFuel (String.length s) (srev s)).

Definition TrimSpace (s : string) : string := trimRight (trimLeft s).

(** [span s] cuts [s] before the first white-space character. *)
Fixpoint span (s : string) : string * string :=
  match s with
  | EmptyString => (EmptyString, EmptyString)
  | String c r =>
    match unicode.spaceLen s with
    | O => let (t, rest) := span r in (String c t, rest)
    | S _ => (EmptyString, s)
    end
  end.

Fixpoint fieldsFuel (fuel : nat) (s : string) : list string :=
  match fuel with
  | O => []
  | S f =>
    match s with
    | EmptyString => []
    | String _ _ =>
      match unicode.spaceLen s with
      | S k => fieldsFuel f (sdrop (S k) s)
      | O => let (t, rest) := span s in t :: fieldsFuel f rest
      end
    end
  end.

(** [Fields s] splits [s] around each run of white-space characters and
    returns the non-empty pieces. *)
Definition Fields (s : string) : list string := fieldsFuel (String.length s) s.

(** The splitting loop of [genSplit] for a non-empty separator: cut at the
    first instance of [sep], at most [fuel] times. *)
Fixpoint splitLoop (fuel : nat) (s sep : string) : list string :=
  match fuel with
  | O => [s]
  | S f =>
    let m := Index s sep in
    if m <? 0 then [s]
    else slice s 0 m :: splitLoop f (sliceFrom s (m + len sep)) sep
  end.

(** The UTF-8 sequences of [s], one string each ([explode] without limit);
    an invalid byte is a sequence of its own. *)
Fixpoint runesFuel (fuel : nat) (s : string) : list string :=
  match fuel with
  | O => []
  | S f =>
    match s with
    | EmptyString => []
    | String _ _ =>
      let w := utf8.runeLen s in stake w s :: runesFuel f (sdrop w s)
    end
  end.

Definition runes (s : string) : list string := runesFuel (String.length s) s.

Fixpoint concatAll (l : list string) : string :=
  match l with
  | [] => EmptyString
  | x :: r => x ++ concatAll r
  end.

(** [explode s n]: at most [n] pieces, the last one holding the rest. *)
Definition explode (s : string) (n : Z) : list string :=
  let rs := runes s in
  let l := Z.of_nat (List.length rs) in
  if (n <? 0) || (l <? n) || (n =? l) then rs
  else if n =? 0 then []
  else (firstn (Z.to_nat (n - 1)) rs ++ [concatAll (skipn (Z.to_nat (n - 1)) rs)])%list.

(** [genSplit s sep 0 n], which [Split] and [SplitN] call. *)
Definition SplitN (s sep : string) (n : Z) : list string :=
  if n =? 0 then []
  else if String.eqb sep EmptyString then explode s n
  else if n <? 0 then splitLoop (String.length s) s sep
  else splitLoop (Z.to_nat (Z.min (n - 1) (len s))) s sep.

Definition Split (s sep : string) : list string := SplitN s sep (-1).

Fixpoint Join (elems : list string) (sep : string) : string :=
  match elems with
  | [] => EmptyString
  | [x] => x
  | x :: r => x ++ sep ++ Join r sep
  end.

End strings.

(** ** Package strconv *)

Module strconv.

Definition isDigit (c : ascii) : bool := (48 <=? code c)%N && (code c <=? 57)%N.

Fixpoint digitsVal (s : string) (acc : Z) : option Z :=
  match s with
  | EmptyString => Some acc
  | String c r =>
    if isDigit c then digitsVal r (acc * 10 + Z.of_N (code c - 48)) else None
  end.

(** [Atoi s]: an optional sign and decimal digits, in the range of the 64-bit
    [int]; [None] stands for a non-nil error (the callers drop the value). *)
Definition Atoi (s : string) : option Z :=
  match s with
  | EmptyString => None
  | String c r =>
    let neg := (code c =? 45)%N in
    let body := if neg || (code c =? 43)%N then r else s in
    match body with
    | EmptyString => None
    | String _ _ =>
      match digitsVal body 0 with
      | None => None
      | Some n =>
        let v := if neg then - n else n in
        if (- 2 ^ 63 <=? v) && (v <=? 2 ^ 63 - 1) then Some v else None
      end
    end
  end.

(** What [ParseFloat s 64] returns: a value with a nil error; an infinity
    with [ErrRange]; or 0 with [ErrSyntax] for a malformed text. *)
Inductive ParseFloatResult : Type :=
| Parsed (f : float)
| ErrRange (inf : float)
| ErrSyntax.

(** The value bound by [val, _ := strconv.ParseFloat(s, 64)]. *)
Definition value (r : ParseFloatResult) : float :=
  match r with
  | Parsed f => f
  | ErrRange inf => inf
  | ErrSyntax => 0%float
  end.

End strconv.

(** ** The library functions that are taken as given

    Decimal-to-binary conversion and its inverse and the regular expression
    engine are not part of the repository; the interpreter is parametrised by
    them. A compiled [*regexp.Regexp] is represented by its source text. *)

Record Runtime : Type := {
  (** the error of [regexp.Compile expr], [None] when [expr] compiles *)
  regexp_Compile : string -> option string;
  (** [regexp.MustCompile(expr).MatchString(s)] *)
  regexp_MatchString : string -> string -> bool;
  (** [strconv.ParseFloat(s, 64)] *)
  strconv_ParseFloat : string -> strconv.ParseFloatResult;
  (** [fmt.Sprintf("%v", x)] for a [float64] *)
  fmt_Sprint : float -> string
}.

(** ** Data model *)

(** The 64-bit [int]: the result of an addition, wrapped. *)
Definition wrap (z : Z) : Z := (z + 2 ^ 63) mod 2 ^ 64 - 2 ^ 63.

Record Options : Type := {
  FieldSeparator : string;
  ProgramText : string   (* Options.Program *)
}.

Record Context : Type := {
  NR : Z;
  NF : Z;
  Fields : list string;
  Line : string;
  FS : string
}.

Inductive Pattern : Type :=
| AlwaysPattern
| RegexPattern (Regex : string)
| LinePattern (LineNumber : Z).

Inductive Expression : Type :=
| FieldExpression (FieldNum : Z)
| VariableExpression (Name : string)
| BinaryExpression (Left : Expression) (Op : string) (Right : Expression).

Record FieldRef : Type := {
  Field : Z;
  Var : string
}.

Inductive Statement : Type :=
| PrintStatement (fields : list FieldRef)
| AssignStatement (variable : string) (Expr : Expression).

(** [map[string]float64]; a missing key reads as 0. *)
Definition Vars : Type := gmap string float.

Definition readVar (vars : Vars) (name : string) : float :=
  default 0%float (vars !! name).

Record Action : Type := {
  Statements : list Statement;
  Variables : option Vars   (* [None] is the nil map *)
}.

Record Rule : Type := {
  RulePattern : option Pattern;   (* Rule.Pattern, [None] is the nil interface *)
  RuleAction : Action             (* Rule.Action *)
}.

Record Program : Type := {
  Begin : option Action;
  Rules : list Rule;
  End_ : option Action            (* Program.End *)
}.

(** The error values, by their message. *)
Definition error : Type := option string.

Inductive Result (A : Type) : Type :=
| Ok (a : A)
| Err (msg : string).
Arguments Ok {A} a.
Arguments Err {A} msg.

Definition bind {A B : Type} (r : Result A) (k : A -> Result B) : Result B :=
  match r with
  | Ok a => k a
  | Err msg => Err msg
  end.

Notation "'let*' x ':=' r 'in' k" := (bind r (fun x => k))
  (at level 10, x name, r at level 100, k at level 200).

(** The output sink: the arguments of the calls to [fmt.Println], oldest
    first. [Println] never makes a statement fail: its error is dropped. *)
Definition Sink : Type := list string.

Definition Println (out : Sink) (s : string) : Sink := (out ++ [s])%list.

(** The input: the lines [scanner.Scan] yields and the error [scanner.Err]
    reports once they are exhausted. *)
Record Reader : Type := {
  tokens : list string;
  scanErr : error
}.

(** ** The interpreter *)

Section Interpreter.

Variable rt : Runtime.

(** *** Field splitting *)

Definition splitFields (line sep : string) : list string :=
  if String.eqb sep " " then strings.Fields line
  else strings.Split line sep.

(** *** Patterns *)

Definition Match (p : Pattern) (ctx : Context) : bool :=
  match p with
  | AlwaysPattern => true
  | RegexPattern re => regexp_MatchString rt re (Line ctx)
  | LinePattern n => NR ctx =? n
  end.

(** *** Expressions *)

Fixpoint Evaluate (e : Expression) (ctx : Context) (vars : Vars) : float :=
  match e with
  | FieldExpression n =>
    if n =? 0 then 0%float
    else if (0 <? n) && (n <=? Z.of_nat (List.length (Fields ctx))) then
      strconv.value (strconv_ParseFloat rt (nth (Z.to_nat (n - 1)) (Fields ctx) ""))
    else 0%float
  | VariableExpression name => readVar vars name
  | BinaryExpression l op r =>
    let left := Evaluate l ctx vars in
    let right := Evaluate r ctx vars in
    if String.eqb op "+" then (left + right)%float
    else if String.eqb op "-" then (left - right)%float
    else if String.eqb op "*" then (left * right)%float
    else if String.eqb op "/" then
      if negb (right =? 0)%float then (left / right)%float else 0%float
    else 0%float
  end.

Definition GetValue (f : FieldRef) (ctx : Context) (vars : Vars) : string :=
  if negb (String.eqb (Var f) "") then fmt_Sprint rt (readVar vars (Var f))
  else if Field f =? 0 then Line ctx
  else if (0 <? Field f) && (Field f <=? Z.of_nat (List.length (Fields ctx))) then
    nth (Z.to_nat (Field f - 1)) (Fields ctx) ""
  else "".

(** *** Statements and actions

    A statement works on the map of its action and on the sink; it returns
    both and its error. *)

Definition Statement_Execute (s : Statement) (ctx : Context) (vars : Vars) (out : Sink)
  : Vars * Sink * error :=
  match s with
  | PrintStatement [] => (vars, Println out (Line ctx), None)
  | PrintStatement fields =>
    let parts := map (fun field => GetValue field ctx vars) fields in
    (vars, Println out (strings.Join parts " "), None)
  | AssignStatement name expr =>
    let value := Evaluate expr ctx vars in
    (<[name := value]> vars, out, None)
  end.

Fixpoint execStatements (stmts : list Statement) (ctx : Context) (vars : Vars) (out : Sink)
  : Vars * Sink * error :=
  match stmts with
  | [] => (vars, out, None)
  | stmt :: rest =>
    let '(vars', out', err) := Statement_Execute stmt ctx vars out in
    match err with
    | Some msg => (vars', out', Some msg)
    | None => execStatements rest ctx vars' out'
    end
  end.

(** [Action.Execute]: the map is the action's own, made on first use and kept
    in the action. *)
Definition Action_Execute (a : Action) (ctx : Context) (out : Sink) : Action * Sink * error :=
  let vars := match Variables a with
              | None => ∅
              | Some m => m
              end in
  let '(vars', out', err) := execStatements (Statements a) ctx vars out in
  ({| Statements := Statements a; Variables := Some vars' |}, out', err).

(** *** Parsing *)

Definition parseExpression (exprStr : string) : Result Expression :=
  let exprStr := strings.TrimSpace exprStr in
  if strings.HasPrefix exprStr "$" then
    match strconv.Atoi (sliceFrom exprStr 1) with
    | None => Err ("invalid field: " ++ exprStr)
    | Some fieldNum => Ok (FieldExpression fieldNum)
    end
  else Ok (VariableExpression exprStr).

Fixpoint parsePrintFields (fields : list string) (acc : list FieldRef) : Result (list FieldRef) :=
  match fields with
  | [] => Ok acc
  | field :: rest =>
    let field := strings.TrimSpace field in
    if strings.HasPrefix field "$" then
      match strconv.Atoi (sliceFrom field 1) with
      | None => Err ("invalid field: " ++ field)
      | Some fieldNum => parsePrintFields rest (acc ++ [{| Field := fieldNum; Var := "" |}])%list
      end
    else parsePrintFields rest (acc ++ [{| Field := 0; Var := field |}])%list
  end.

Definition parsePrint (printStr : string) : Result Statement :=
  let printStr := strings.TrimPrefix printStr "print" in
  let printStr := strings.TrimSpace printStr in
  if String.eqb printStr "" || String.eqb printStr "$0" then Ok (PrintStatement [])
  else
    let fields := strings.Split printStr "," in
    let* fs := parsePrintFields fields [] in
    Ok (PrintStatement fs).

Definition parseStatement (stmtStr : string) : Result Statement :=
  let stmtStr := strings.TrimSpace stmtStr in
  if strings.HasPrefix stmtStr "print" then parsePrint stmtStr
  else if strings.Contains stmtStr "+=" then
    let parts := strings.SplitN stmtStr "+=" 2 in
    let varName := strings.TrimSpace (nth 0 parts "") in
    let exprStr := strings.TrimSpace (nth 1 parts "") in
    let* expr := parseExpression exprStr in
    Ok (AssignStatement varName
          (BinaryExpression (VariableExpression varName) "+" expr))
  else Err ("unsupported statement: " ++ stmtStr).

Definition parseAction (actionStr : string) : Result Action :=
  let actionStr := strings.TrimSpace actionStr in
  if negb (strings.HasPrefix actionStr "{") || negb (strings.HasSuffix actionStr "}") then
    Err "action must be enclosed in braces"
  else
    let actionStr := slice actionStr 1 (len actionStr - 1) in
    let actionStr := strings.TrimSpace actionStr in
    if negb (String.eqb actionStr "") then
      let* stmt := parseStatement actionStr in
      Ok {| Statements := [stmt]; Variables := None |}
    else Ok {| Statements := []; Variables := None |}.

(** The action a rule without a block gets: one [print] of the line. *)
Definition defaultAction : Action :=
  {| Statements := [PrintStatement []]; Variables := None |}.

Definition parseRuleAction (pattern : Pattern) (ruleStr : string) : Result Rule :=
  if negb (String.eqb ruleStr "") then
    let* action := parseAction ruleStr in
    Ok {| RulePattern := Some pattern; RuleAction := action |}
  else Ok {| RulePattern := Some pattern; RuleAction := defaultAction |}.

Definition parseRule (ruleStr : string) : Result Rule :=
  let ruleStr := strings.TrimSpace ruleStr in
  if strings.HasPrefix ruleStr "/" then
    let endIdx := strings.Index (sliceFrom ruleStr 1) "/" in
    if endIdx =? -1 then Err "missing closing / for pattern"
    else
      let patternStr := slice ruleStr 1 (endIdx + 1) in
      match regexp_Compile rt patternStr with
      | Some msg => Err ("invalid regex: " ++ msg)
      | None =>
        parseRuleAction (RegexPattern patternStr)
                        (strings.TrimSpace (sliceFrom ruleStr (endIdx + 2)))
      end
  else if strings.HasPrefix ruleStr "NR==" then
    let parts := strings.SplitN ruleStr " " 2 in
    let lineStr := strings.TrimPrefix (nth 0 parts "") "NR==" in
    match strconv.Atoi lineStr with
    | None => Err ("invalid line number: " ++ lineStr)
    | Some lineNum =>
      parseRuleAction (LinePattern lineNum)
                      (if 1 <? Z.of_nat (List.length parts)
                       then strings.TrimSpace (nth 1 parts "")
                       else "")
    end
  else parseRuleAction AlwaysPattern ruleStr.

(** The first two steps of [parseProgram]: the BEGIN block and the END block
    are cut off and compiled; the text left for the rule is returned. *)
Definition parseBegin (prog : string) : Result (option Action * string) :=
  if strings.HasPrefix prog "BEGIN" then
    let endIdx := strings.Index prog "}" in
    if endIdx =? -1 then Err "missing closing brace for BEGIN"
    else
      let actionStr := slice prog 5 (endIdx + 1) in
      let* action := parseAction actionStr in
      Ok (Some action, strings.TrimSpace (sliceFrom prog (endIdx + 1)))
  else Ok (None, prog).

Definition parseEnd (prog : string) : Result (option Action * string) :=
  let idx := strings.Index prog "END" in
  if 0 <=? idx then
    let actionStr := sliceFrom prog (idx + 3) in
    let* action := parseAction actionStr in
    Ok (Some action, strings.TrimSpace (slice prog 0 idx))
  else Ok (None, prog).

Definition parseProgram (prog : string) : Result Program :=
  let prog := strings.TrimSpace prog in
  let* cut := parseBegin prog in
  let '(begin, prog) := cut in
  let* cut := parseEnd prog in
  let '(end_, prog) := cut in
  if negb (String.eqb prog "") then
    let* rule := parseRule prog in
    Ok {| Begin := begin; Rules := [rule]; End_ := end_ |}
  else Ok {| Begin := begin; Rules := []; End_ := end_ |}.

(** *** The driver *)

(** The body of the scanning loop before the rules run: the next record. *)
Definition nextRecord (ctx : Context) (line : string) : Context :=
  let fields := splitFields line (FS ctx) in
  {| NR := wrap (NR ctx + 1);
     NF := Z.of_nat (List.length fields);
     Fields := fields;
     Line := line;
     FS := FS ctx |}.

(** [for _, rule := range program.Rules]: a rule whose pattern matches runs
    its action, which keeps its map; the first error ends the loop. *)
Fixpoint execRules (rules : list Rule) (ctx : Context) (out : Sink)
  : list Rule * Sink * error :=
  match rules with
  | [] => ([], out, None)
  | rule :: rest =>
    let matched := match RulePattern rule with
                   | None => true
                   | Some p => Match p ctx
                   end in
    if matched then
      let '(action', out', err) := Action_Execute (RuleAction rule) ctx out in
      let rule' := {| RulePattern := RulePattern rule; RuleAction := action' |} in
      match err with
      | Some msg => (rule' :: rest, out', Some msg)
      | None =>
        let '(rest', out'', err') := execRules rest ctx out' in
        (rule' :: rest', out'', err')
      end
    else
      let '(rest', out', err) := execRules rest ctx out in
      (rule :: rest', out', err)
  end.

(** [for scanner.Scan() { ... }] over the lines the scanner yields. *)
Fixpoint scanLoop (lines : list string) (rules : list Rule) (ctx : Context) (out : Sink)
  : list Rule * Context * Sink * error :=
  match lines with
  | [] => (rules, ctx, out, None)
  | line :: rest =>
    let ctx' := nextRecord ctx line in
    let '(rules', out', err) := execRules rules ctx' out in
    match err with
    | Some msg => (rules', ctx', out', Some msg)
    | None => scanLoop rest rules' ctx' out'
    end
  end.

Definition newContext (opts : Options) : Context :=
  {| NR := 0; NF := 0; Fields := []; Line := ""; FS := FieldSeparator opts |}.

(** [processInput]: what has been printed when it returns, and its error. *)
Definition processInput (reader : Reader) (opts : Options) (out : Sink) : Sink * error :=
  match parseProgram (ProgramText opts) with
  | Err msg => (out, Some msg)
  | Ok program =>
    let ctx := newContext opts in
    let '(out, err) :=
      match Begin program with
      | None => (out, None)
      | Some begin => let '(_, out', err) := Action_Execute begin ctx out in (out', err)
      end in
    match err with
    | Some msg => (out, Some msg)
    | None =>
      let '(_, ctx, out, err) := scanLoop (tokens reader) (Rules program) ctx out in
      match err with
      | Some msg => (out, Some msg)
      | None =>
        match scanErr reader with
        | Some msg => (out, Some msg)
        | None =>
          match End_ program with
          | None => (out, None)
          | Some end_ => let '(_, out', err) := Action_Execute end_ ctx out in (out', err)
          end
        end
      end
    end
  end.

(** [RunE] of the command on several inputs: one [processInput] after the
    other on the same options, stopping at the first error. *)
Fixpoint processAll (readers : list Reader) (opts : Options) (out : Sink) : Sink * error :=
  match readers with
  | [] => (out, None)
  | reader :: rest =>
    let '(out', err) := processInput reader opts out in
    match err with
    | Some msg => (out', Some msg)
    | None => processAll rest opts out'
    end
  end.

End Interpreter.

(** ** An instance of the library functions

    Enough of them to run programs, in agreement with the Go functions on
    the inputs they accept: a natural number below 2^53 written in decimal
    digits converts to the float of that value, a float that is a one-digit
    natural number prints as that digit, and a regular expression made of
    letters and digits only matches the lines that contain it. Any other text
    is refused as malformed. *)

Module sample.

Definition plain (c : ascii) : bool :=
  strconv.isDigit c
  || ((65 <=? code c)%N && (code c <=? 90)%N)
  || ((97 <=? code c)%N && (code c <=? 122)%N).

Fixpoint allPlain (s : string) : bool :=
  match s with
  | EmptyString => true
  | String c r => plain c && allPlain r
  end.

Definition Compile (expr : string) : option string :=
  if allPlain expr then None else Some "unsupported expression".

Definition MatchString (expr s : string) : bool := strings.Contains s expr.

Fixpoint ofPos (p : positive) : float :=
  match p with
  | xH => 1%float
  | xO q => (2 * ofPos q)%float
  | xI q => (2 * ofPos q + 1)%float
  end.

Definition ofZ (z : Z) : float :=
  match z with
  | Z0 => 0%float
  | Zpos p => ofPos p
  | Zneg p => (- ofPos p)%float
  end.

Definition ParseFloat (s : string) : strconv.ParseFloatResult :=
  match s with
  | EmptyString => strconv.ErrSyntax
  | String _ _ =>
    match strconv.digitsVal s 0 with
    | Some n => if n <? 2 ^ 53 then strconv.Parsed (ofZ n) else strconv.ErrSyntax
    | None => strconv.ErrSyntax
    end
  end.

Fixpoint digitOf (fuel : nat) (n : Z) (x : float) : string :=
  match fuel with
  | O => "?"
  | S f =>
    if (x =? ofZ n)%float then String (ascii_of_N (Z.to_N (48 + n))) ""
    else digitOf f (n + 1) x
  end.

Definition Sprint (x : float) : string := digitOf 10 0 x.

Definition runtime : Runtime :=
  {| regexp_Compile := Compile;
     regexp_MatchString := MatchString;
     strconv_ParseFloat := ParseFloat;
     fmt_Sprint := Sprint |}.

End sample.

(** * Notions used in the statements

    The programs, rules and contexts the theorems name, the relation that
    says what the fields of a line are, and the decimal digits of a number. *)

(** ** Programs and rules *)

Definition printAction (v : option Vars) : Action :=
  {| Statements := [PrintStatement []]; Variables := v |}.

Definition printRule (v : option Vars) : Rule :=
  {| RulePattern := Some AlwaysPattern; RuleAction := printAction v |}.

Definition sumAction (v : option Vars) : Action :=
  {| Statements :=
       [AssignStatement "sum"
          (BinaryExpression (VariableExpression "sum") "+" (FieldExpression 1))];
     Variables := v |}.

Definition sumRule (v : option Vars) : Rule :=
  {| RulePattern := Some AlwaysPattern; RuleAction := sumAction v |}.

Definition printSum : Action :=
  {| Statements := [PrintStatement [{| Field := 0; Var := "sum" |}]];
     Variables := None |}.

Definition sumProgram : Program :=
  {| Begin := None; Rules := [sumRule None]; End_ := Some printSum |}.

Definition lineRule (k : Z) (a : Action) : Rule :=
  {| RulePattern := Some (LinePattern k); RuleAction := a |}.

(** The context after the scanning loop has read [lines], starting in [ctx]. *)
Definition contextAfter (ctx : Context) (lines : list string) : Context :=
  fold_left nextRecord lines ctx.

Definition regexRule (re : string) (a : Action) : Rule :=
  {| RulePattern := Some (RegexPattern re); RuleAction := a |}.

Definition sampleContext : Context :=
  {| NR := 1; NF := 2; Fields := ["abc"; "0"]; Line := "abc 0"; FS := " " |}.

(** The BEGIN and END actions and the text left for the rule, as
    [parseProgram] computes them before it looks at the rule. *)
Definition sections (prog : string) : Result (option Action * option Action * string) :=
  let prog := strings.TrimSpace prog in
  let* cut := parseBegin prog in
  let '(begin, prog) := cut in
  let* cut := parseEnd prog in
  let '(end_, prog) := cut in
  Ok (begin, end_, prog).

Definition fails {A : Type} (r : Result A) : Prop := exists msg, r = Err msg.

(** ** Fields as maximal runs without white space *)

(** [c] is the encoding of one white-space character. *)
Definition isSpaceChar (c : string) : Prop :=
  c <> "" /\ unicode.spaceLen c = String.length c.

(** A run of white-space characters. *)
Inductive whiteRun : string -> Prop :=
| white_nil : whiteRun ""
| white_cons c w : isSpaceChar c -> whiteRun w -> whiteRun (c ++ w).

(** No white-space character starts inside [t] when [rest] follows it. *)
Definition noSpaceIn (t rest : string) : Prop :=
  forall i, (i < String.length t)%nat -> unicode.spaceLen (sdrop i (t ++ rest)) = 0%nat.

(** [FieldsOf line fs]: [line] is white space, then the first field, then the
    rest; a field is not empty, holds no white space and ends at white space
    or at the end of the line. *)
Inductive FieldsOf : string -> list string -> Prop :=
| fields_end w : whiteRun w -> FieldsOf w []
| fields_token w t rest fs :
    whiteRun w ->
    t <> "" ->
    noSpaceIn t rest ->
    rest = "" \/ unicode.spaceLen rest <> 0%nat ->
    FieldsOf rest fs ->
    FieldsOf (w ++ t ++ rest) (t :: fs).

(** ** Decimal digits *)

(** The decimal digits of a natural number. *)
Definition decimal (k : nat) : string := NilEmpty.string_of_uint (Nat.to_uint k).

Fixpoint allDigits (s : string) : bool :=
  match s with
  | EmptyString => true
  | String c r => strconv.isDigit c && allDigits r
  end.

(** ** The command on files *)

(** [os.Open]: the lines of the file and the error its scanner ends with,
    or the text of the error that refuses the file. *)
Definition FileSystem : Type := string -> Reader + string.

Definition processFile (rt : Runtime) (open : FileSystem) (filename : string)
  (opts : Options) (out : Sink) : Sink * error :=
  match open filename with
  | inr msg => (out, Some ("cannot open '" ++ filename ++ "': " ++ msg))
  | inl file => processInput rt file opts out
  end.

(** [for _, file := range files] of [RunE]. *)
Fixpoint processFiles (rt : Runtime) (open : FileSystem) (files : list string)
  (opts : Options) (out : Sink) : Sink * error :=
  match files with
  | [] => (out, None)
  | file :: rest =>
    let '(out', err) := processFile rt open file opts out in
    match err with
    | Some msg => (out', Some msg)
    | None => processFiles rt open rest opts out'
    end
  end.

(** [RunE] on the arguments [program :: files] (the command refuses an empty
    argument list before it calls [RunE]), with the value of the flag [-F]. *)
Definition RunE (rt : Runtime) (stdin : Reader) (open : FileSystem)
  (fieldSeparator program : string) (files : list string) (out : Sink) : Sink * error :=
  let opts := {| FieldSeparator := fieldSeparator; ProgramText := program |} in
  match files with
  | [] => processInput rt stdin opts out
  | _ :: _ => processFiles rt open files opts out
  end.

(** ** Records and what a rule prints *)

(** The contexts of the records the loop reads from [lines], one after the
    other, starting in [ctx]. *)
Fixpoint records (ctx : Context) (lines : list string) : list Context :=
  match lines with
  | [] => []
  | line :: rest => nextRecord ctx line :: records (nextRecord ctx line) rest
  end.

(** The test of the loop: a nil pattern matches. *)
Definition matches (rt : Runtime) (p : option Pattern) (ctx : Context) : bool :=
  match p with
  | None => true
  | Some pat => Match rt pat ctx
  end.

(** The line a [print] of [fields] writes on a record when no variable is
    set. *)
Definition printedLine (rt : Runtime) (fields : list FieldRef) (ctx : Context) : string :=
  match fields with
  | [] => Line ctx
  | _ :: _ => strings.Join (map (fun f => GetValue rt f ctx ∅) fields) " "
  end.

Definition printFields (fields : list FieldRef) (v : option Vars) : Action :=
  {| Statements := [PrintStatement fields]; Variables := v |}.

(** The statement [name += expr] as [parseStatement] builds it. *)
Definition accumulate (name : string) (expr : Expression) (v : option Vars) : Action :=
  {| Statements :=
       [AssignStatement name (BinaryExpression (VariableExpression name) "+" expr)];
     Variables := v |}.

(** The map an action works on. *)
Definition store (a : Action) : Vars :=
  match Variables a with
  | None => ∅
  | Some m => m
  end.

(** What the parser builds: at most one statement, and no map yet. *)
Definition freshAction (a : Action) : Prop :=
  (List.length (Statements a) <= 1)%nat /\ Variables a = None.

(** Field [k] of a line as [print $k] shows it: the line for 0, the empty
    string beyond the last field. *)
Definition fieldOf (sep : string) (k : nat) (line : string) : string :=
  match k with
  | O => line
  | S j => nth j (splitFields line sep) ""
  end.

(** A field as [Fields] yields them: not empty and without white space. *)
Definition isField (t : string) : Prop := t <> "" /\ noSpaceIn t "".


(** The [j]-th line of a file, if it has one (lines count from 1). *)
Definition kthLine (j : nat) (lines : list string) : list string :=
  match j with
  | O => []
  | S i => match nth_error lines i with
           | Some line => [line]
           | None => []
           end
  end.

(** The lines of a file that opens. *)
Definition linesOf (open : FileSystem) (filename : string) : list string :=
  match open filename with
  | inl file => tokens file
  | inr _ => []
  end.

(** A file that opens, is read to its end without error and has fewer than
    2^63 lines. *)
Definition readable (open : FileSystem) (filename : string) : Prop :=
  exists file,
    open filename = inl file
    /\ scanErr file = None
    /\ Z.of_nat (List.length (tokens file)) < 2 ^ 63.

(** A small file system. *)
Definition twoFiles : FileSystem :=
  fun name =>
    if String.eqb name "a.txt" then inl {| tokens := ["a1"; "a2"; "a3"]; scanErr := None |}
    else if String.eqb name "b.txt" then inl {| tokens := ["b1"; "b2"]; scanErr := None |}
    else if String.eqb name "c.txt" then inl {| tokens := ["c1"]; scanErr := None |}
    else inr "no such file or directory".

(** * Properties of the library functions *)

(** ** Slices *)

Lemma app_cons c (s t : string) : String c s ++ t = String c (s ++ t).
Proof. reflexivity. Qed.

Lemma stake_sdrop n : forall s, stake n s ++ sdrop n s = s.
Proof.
  induction n as [| n IH]; intros [| c s]; simpl; try reflexivity.
  now rewrite app_cons, IH.
Qed.

Lemma length_sdrop n : forall s, String.length (sdrop n s) = (String.length s - n)%nat.
Proof.
  induction n as [| n IH]; intros [| c s]; cbn; try reflexivity; try lia.
  apply IH.
Qed.

Lemma length_stake n : forall s, String.length (stake n s) = Nat.min n (String.length s).
Proof.
  induction n as [| n IH]; intros [| c s]; cbn; try reflexivity.
  now rewrite IH.
Qed.

Lemma length_app (s t : string) :
  String.length (s ++ t) = (String.length s + String.length t)%nat.
Proof.
  induction s as [| c s IH]; [reflexivity |].
  rewrite app_cons. cbn [String.length]. now rewrite IH.
Qed.

Lemma sdrop_sdrop n : forall m s, sdrop n (sdrop m s) = sdrop (m + n) s.
Proof.
  intros m. induction m as [| m IH]; intros s; [reflexivity |].
  destruct s as [| c s]; cbn; [now destruct n | apply IH].
Qed.

Lemma sdrop_all s : sdrop (String.length s) s = "".
Proof. induction s as [| c s IH]; [reflexivity | exact IH]. Qed.

Lemma sdrop_app_length s t : sdrop (String.length s) (s ++ t) = t.
Proof. induction s as [| c s IH]; [reflexivity | exact IH]. Qed.

Lemma app_empty_r (s : string) : s ++ "" = s.
Proof. induction s as [| c s IH]; [reflexivity | now rewrite app_cons, IH]. Qed.

Lemma app_assoc_s (s t u : string) : (s ++ t) ++ u = s ++ t ++ u.
Proof. induction s as [| c s IH]; [reflexivity | now rewrite !app_cons, IH]. Qed.

(** ** Prefixes and [Index] *)

Lemma HasPrefix_app p : forall r, strings.HasPrefix (p ++ r) p = true.
Proof.
  induction p as [| a p IH]; intros r; [reflexivity |].
  rewrite app_cons. cbn [strings.HasPrefix]. now rewrite Ascii.eqb_refl, IH.
Qed.

Lemma HasPrefix_elim p : forall s,
  strings.HasPrefix s p = true -> s = p ++ sdrop (String.length p) s.
Proof.
  induction p as [| a p IH]; intros s H; cbn in *; [reflexivity |].
  destruct s as [| b s]; [discriminate |].
  apply andb_true_iff in H as [Hab Hp].
  apply Ascii.eqb_eq in Hab. subst b. rewrite app_cons. cbn [String.length sdrop].
  f_equal. now apply IH.
Qed.

Lemma HasPrefix_length p : forall s,
  strings.HasPrefix s p = true -> (String.length p <= String.length s)%nat.
Proof.
  induction p as [| a p IH]; intros s H; cbn in *; [lia |].
  destruct s as [| b s]; [discriminate |].
  apply andb_true_iff in H as [_ Hp]. apply IH in Hp. cbn. lia.
Qed.

Lemma HasPrefix_stake p : forall n s,
  strings.HasPrefix (stake n s) p = true -> strings.HasPrefix s p = true.
Proof.
  induction p as [| a p IH]; intros n s H; cbn in *; [reflexivity |].
  destruct n as [| n]; destruct s as [| b s]; cbn in H; try discriminate.
  apply andb_true_iff in H as [Hab Hp].
  rewrite Hab. cbn. now apply (IH n).
Qed.

Lemma stake_empty n : stake n "" = "".
Proof. now destruct n. Qed.

Lemma sdrop_empty n : sdrop n "" = "".
Proof. now destruct n. Qed.

Lemma sdrop_stake j : forall i s, sdrop j (stake i s) = stake (i - j) (sdrop j s).
Proof.
  induction j as [| j IH]; intros i s.
  - cbn [sdrop]. now rewrite Nat.sub_0_r.
  - destruct i as [| i].
    + cbn [stake Nat.sub]. now rewrite sdrop_empty.
    + destruct s as [| b s].
      * now rewrite stake_empty, !sdrop_empty, stake_empty.
      * cbn [stake sdrop Nat.sub]. apply IH.
Qed.

Lemma Index_range sep : forall s,
  strings.Index s sep = -1 \/ 0 <= strings.Index s sep <= len s.
Proof.
  unfold len.
  induction s as [| c s IH]; cbn [strings.Index].
  - destruct (strings.HasPrefix "" sep); [right; cbn; lia | now left].
  - destruct (strings.HasPrefix (String c s) sep); [right; cbn [String.length]; lia |].
    destruct (Z.ltb_spec (strings.Index s sep) 0); [now left |].
    right. cbn [String.length]. lia.
Qed.

Lemma Index_found sep : forall s,
  0 <= strings.Index s sep ->
  strings.HasPrefix (sdrop (Z.to_nat (strings.Index s sep)) s) sep = true.
Proof.
  induction s as [| c s IH]; cbn [strings.Index]; intros H.
  - destruct (strings.HasPrefix "" sep) eqn:E; [exact E | lia].
  - destruct (strings.HasPrefix (String c s) sep) eqn:E; [exact E |].
    destruct (Z.ltb_spec (strings.Index s sep) 0) as [Hn | Hn]; [lia |].
    replace (Z.to_nat (strings.Index s sep + 1)) with (S (Z.to_nat (strings.Index s sep)))
      by lia.
    cbn [sdrop]. now apply IH.
Qed.

(** No instance of [sep] starts before the offset [Index] returns, and none
    at all when it returns -1. *)
Lemma Index_least sep : forall s j,
  (j <= String.length s)%nat ->
  strings.Index s sep = -1 \/ Z.of_nat j < strings.Index s sep ->
  strings.HasPrefix (sdrop j s) sep = false.
Proof.
  induction s as [| c s IH]; intros j Hj H; cbn [strings.Index] in H.
  - destruct j; [| cbn in Hj; lia]. cbn [sdrop].
    destruct (strings.HasPrefix "" sep); [| reflexivity]. destruct H; lia.
  - destruct (strings.HasPrefix (String c s) sep) eqn:E; [destruct H; lia |].
    destruct j as [| j]; [exact E |]. cbn [sdrop]. cbn [String.length] in Hj.
    apply IH; [lia |].
    destruct (Z.ltb_spec (strings.Index s sep) 0) as [Hn | Hn].
    + left. destruct (Index_range sep s); lia.
    + right. destruct H; lia.
Qed.

Lemma Index_exists sep : forall s j,
  strings.HasPrefix (sdrop j s) sep = true ->
  (j <= String.length s)%nat ->
  0 <= strings.Index s sep <= Z.of_nat j.
Proof.
  intros s j Hp Hj.
  destruct (Index_range sep s) as [Hn | Hr].
  - rewrite (Index_least sep s j Hj (or_introl Hn)) in Hp. discriminate.
  - destruct (Z.le_gt_cases (strings.Index s sep) (Z.of_nat j)) as [Hle | Hgt]; [lia |].
    rewrite (Index_least sep s j Hj) in Hp; [discriminate | right; lia].
Qed.

(** The text before the first instance of a non-empty [sep] holds none. *)
Lemma Index_prefix_free sep s :
  sep <> "" ->
  0 <= strings.Index s sep ->
  strings.Index (stake (Z.to_nat (strings.Index s sep)) s) sep = -1.
Proof.
  intros Hsep Hi.
  set (i := Z.to_nat (strings.Index s sep)).
  destruct (Index_range sep (stake i s)) as [Hn | Hr]; [exact Hn | exfalso].
  pose proof (Index_found sep (stake i s) (proj1 Hr)) as Hp.
  set (m := Z.to_nat (strings.Index (stake i s) sep)) in *.
  assert (Hm : (m <= String.length (stake i s))%nat) by (unfold len in Hr; lia).
  rewrite length_stake in Hm.
  rewrite sdrop_stake in Hp.
  destruct (Nat.eq_dec m i) as [-> | Hne].
  - rewrite Nat.sub_diag in Hp. cbn in Hp.
    destruct sep; [congruence | discriminate].
  - apply HasPrefix_stake in Hp.
    assert (Hlen : (i <= String.length s)%nat).
    { destruct (Index_range sep s) as [? | Hr']; unfold len in *; lia. }
    rewrite (Index_least sep s m) in Hp; [discriminate | lia | right; lia].
Qed.

(** The line is cut at the first instance of [sep]. *)
Lemma Index_cut sep s :
  0 <= strings.Index s sep ->
  s = stake (Z.to_nat (strings.Index s sep)) s ++ sep
      ++ sdrop (Z.to_nat (strings.Index s sep) + String.length sep) s.
Proof.
  intros Hi. pose proof (Index_found sep s Hi) as Hp.
  apply HasPrefix_elim in Hp. rewrite sdrop_sdrop in Hp.
  rewrite <- Hp. symmetry. apply stake_sdrop.
Qed.

(** ** [Split] on a separator *)

Lemma splitLoop_nonempty sep fuel s : strings.splitLoop fuel s sep <> [].
Proof.
  destruct fuel; cbn [strings.splitLoop]; [discriminate |].
  destruct (strings.Index s sep <? 0); discriminate.
Qed.

Lemma Join_cons x l sep :
  l <> [] -> strings.Join (x :: l) sep = x ++ sep ++ strings.Join l sep.
Proof. destruct l; [congruence | reflexivity]. Qed.

Lemma slice_0 s m : slice s 0 m = stake (Z.to_nat m) s.
Proof. unfold slice. now rewrite Z.sub_0_r. Qed.

Lemma Join_splitLoop sep : forall fuel s,
  strings.Join (strings.splitLoop fuel s sep) sep = s.
Proof.
  induction fuel as [| fuel IH]; intros s; cbn [strings.splitLoop]; [reflexivity |].
  destruct (Z.ltb_spec (strings.Index s sep) 0) as [Hn | Hn]; [reflexivity |].
  rewrite Join_cons by apply splitLoop_nonempty.
  rewrite IH, slice_0. unfold sliceFrom, len.
  replace (Z.to_nat (strings.Index s sep + Z.of_nat (String.length sep)))
    with (Z.to_nat (strings.Index s sep) + String.length sep)%nat by lia.
  symmetry. now apply Index_cut.
Qed.

Lemma Index_empty sep : sep <> "" -> strings.Index "" sep = -1.
Proof. destruct sep; [congruence | reflexivity]. Qed.

Lemma splitLoop_tokens sep :
  sep <> "" ->
  forall fuel s,
    (String.length s <= fuel)%nat ->
    Forall (fun t => strings.Index t sep = -1) (strings.splitLoop fuel s sep).
Proof.
  intros Hsep. induction fuel as [| fuel IH]; intros s Hlen; cbn [strings.splitLoop].
  - destruct s; [| cbn in Hlen; lia]. constructor; [now apply Index_empty | constructor].
  - destruct (Z.ltb_spec (strings.Index s sep) 0) as [Hn | Hn].
    + constructor; [| constructor]. destruct (Index_range sep s); lia.
    + constructor.
      * rewrite slice_0. now apply Index_prefix_free.
      * apply IH. unfold sliceFrom, len. rewrite length_sdrop.
        assert (0 < String.length sep)%nat by (destruct sep; [congruence | cbn; lia]).
        lia.
Qed.

(** ** [Split] on the empty separator *)

Lemma runeLen_pos c r : (1 <= utf8.runeLen (String c r))%nat.
Proof.
  unfold utf8.runeLen.
  repeat match goal with
         | |- context [if ?b then _ else _] => destruct b
         | |- context [match ?x with EmptyString => _ | String _ _ => _ end] => destruct x
         end; lia.
Qed.

Lemma concatAll_runesFuel : forall fuel s,
  (String.length s <= fuel)%nat -> strings.concatAll (strings.runesFuel fuel s) = s.
Proof.
  induction fuel as [| fuel IH]; intros s Hlen; cbn [strings.runesFuel].
  - destruct s; [reflexivity | cbn in Hlen; lia].
  - destruct s as [| c r]; [reflexivity |].
    cbn [strings.concatAll]. rewrite IH; [apply stake_sdrop |].
    rewrite length_sdrop. pose proof (runeLen_pos c r). cbn [String.length] in *. lia.
Qed.

Lemma Join_empty_sep l : strings.Join l "" = strings.concatAll l.
Proof.
  induction l as [| x l IH]; [reflexivity |].
  destruct l as [| y l]; [cbn; now rewrite app_empty_r |].
  rewrite Join_cons by discriminate. rewrite IH. reflexivity.
Qed.

Lemma Split_nonempty_sep s sep :
  sep <> "" -> strings.Split s sep = strings.splitLoop (String.length s) s sep.
Proof.
  intros Hsep. unfold strings.Split, strings.SplitN.
  destruct (String.eqb_spec sep ""); [contradiction | reflexivity].
Qed.

Lemma Join_Split s sep : strings.Join (strings.Split s sep) sep = s.
Proof.
  destruct (String.eqb_spec sep "") as [-> | Hsep].
  - rewrite Join_empty_sep. now apply concatAll_runesFuel.
  - rewrite Split_nonempty_sep by assumption. apply Join_splitLoop.
Qed.

(** ** [Fields]: maximal runs of characters that are not white space *)

Ltac split_cases :=
  repeat match goal with
         | |- context [if ?b then _ else _] => destruct b eqn:?
         | H : context [if ?b then _ else _] |- _ => destruct b eqn:?
         end.

Lemma spaceLen_stake s k :
  unicode.spaceLen s = S k ->
  isSpaceChar (stake (S k) s).
Proof.
  unfold isSpaceChar, unicode.spaceLen.
  destruct s as [| c0 [| c1 [| c2 r]]]; intros H; split_cases; try discriminate;
    injection H as <-; cbn [stake String.length];
    (split; [discriminate |]); rewrite ?Heqb, ?Heqb0, ?Heqb1; reflexivity.
Qed.

Lemma spaceLen_app c y :
  isSpaceChar c -> unicode.spaceLen (c ++ y) = String.length c.
Proof.
  unfold isSpaceChar, unicode.spaceLen. intros [Hne H].
  destruct c as [| c0 [| c1 [| c2 r]]]; [congruence | | |];
    rewrite ?app_cons; cbn [String.length] in *; split_cases; try discriminate;
    try reflexivity; try lia.
Qed.

Lemma span_spec : forall s t rest,
  strings.span s = (t, rest) ->
  s = t ++ rest /\ noSpaceIn t rest /\ (rest = "" \/ unicode.spaceLen rest <> 0%nat).
Proof.
  induction s as [| c r IH]; intros t rest Hs.
  - injection Hs as <- <-. split; [reflexivity |]. split; [| now left].
    intros i Hi. cbn in Hi. lia.
  - cbn [strings.span] in Hs.
    destruct (unicode.spaceLen (String c r)) as [| k] eqn:E.
    + destruct (strings.span r) as [t' rest'] eqn:Hr.
      injection Hs as <- <-.
      destruct (IH t' rest' eq_refl) as (Happ & Hno & Hrest).
      split; [rewrite app_cons; now f_equal |]. split; [| exact Hrest].
      intros [| i] Hi.
      * cbn [sdrop]. rewrite app_cons, <- Happ. exact E.
      * rewrite app_cons. cbn [sdrop]. apply Hno. cbn [String.length] in Hi. lia.
    + injection Hs as <- <-. split; [reflexivity |]. split.
      * intros i Hi. cbn in Hi. lia.
      * right. rewrite E. discriminate.
Qed.

Lemma span_head c r :
  unicode.spaceLen (String c r) = 0%nat ->
  exists t rest, strings.span (String c r) = (String c t, rest).
Proof.
  intros E. cbn [strings.span]. rewrite E.
  destruct (strings.span r) as [t rest]. now exists t, rest.
Qed.

Lemma FieldsOf_space c s fs :
  isSpaceChar c -> FieldsOf s fs -> FieldsOf (c ++ s) fs.
Proof.
  intros Hc H. destruct H as [w Hw | w t rest fs Hw Ht Hno Hrest Hfs].
  - apply fields_end. now apply white_cons.
  - rewrite <- app_assoc_s. apply fields_token; try assumption. now apply white_cons.
Qed.

Lemma fieldsFuel_spec : forall fuel s,
  (String.length s <= fuel)%nat -> FieldsOf s (strings.fieldsFuel fuel s).
Proof.
  induction fuel as [| fuel IH]; intros s Hlen.
  - destruct s; [| cbn in Hlen; lia]. apply fields_end, white_nil.
  - destruct s as [| c r]; [apply fields_end, white_nil |].
    cbn [strings.fieldsFuel].
    destruct (unicode.spaceLen (String c r)) as [| k] eqn:E.
    + destruct (span_head c r E) as (t & rest & Hs). rewrite Hs.
      destruct (span_spec _ _ _ Hs) as (Happ & Hno & Hrest).
      rewrite Happ. apply (fields_token "" (String c t) rest); try assumption.
      * apply white_nil.
      * discriminate.
      * apply IH. apply (f_equal String.length) in Happ.
        rewrite length_app in Happ. cbn [String.length] in *. lia.
    + rewrite <- (stake_sdrop (S k) (String c r)) at 1.
      apply FieldsOf_space; [now apply spaceLen_stake |].
      apply IH. rewrite length_sdrop. cbn [String.length] in *. lia.
Qed.

Lemma Fields_spec s : FieldsOf s (strings.Fields s).
Proof. apply fieldsFuel_spec. lia. Qed.

(** More fuel than the length changes nothing. *)
Lemma fieldsFuel_enough : forall fuel1 fuel2 s,
  (String.length s <= fuel1)%nat ->
  (String.length s <= fuel2)%nat ->
  strings.fieldsFuel fuel1 s = strings.fieldsFuel fuel2 s.
Proof.
  induction fuel1 as [| fuel1 IH]; intros fuel2 s H1 H2.
  - destruct s; [| cbn in H1; lia]. now destruct fuel2.
  - destruct s as [| c r]; [now destruct fuel2 |].
    destruct fuel2 as [| fuel2]; [cbn in H2; lia |].
    cbn [strings.fieldsFuel].
    destruct (unicode.spaceLen (String c r)) as [| k] eqn:E.
    + destruct (span_head c r E) as (t & rest & Hs). rewrite Hs.
      destruct (span_spec _ _ _ Hs) as (Happ & _ & _).
      apply (f_equal String.length) in Happ. rewrite length_app in Happ.
      cbn [String.length] in *. f_equal. apply IH; lia.
    + apply IH; rewrite length_sdrop; cbn [String.length] in *; lia.
Qed.

Lemma Fields_space s k :
  unicode.spaceLen s = S k -> strings.Fields s = strings.Fields (sdrop (S k) s).
Proof.
  intros E. unfold strings.Fields.
  destruct s as [| c r]; [discriminate E |].
  cbn [String.length strings.fieldsFuel]. rewrite E.
  apply fieldsFuel_enough; rewrite ?length_sdrop; cbn [String.length]; lia.
Qed.

Lemma Fields_token s t rest :
  s <> "" ->
  unicode.spaceLen s = 0%nat ->
  strings.span s = (t, rest) ->
  strings.Fields s = t :: strings.Fields rest.
Proof.
  intros Hne E Hs. unfold strings.Fields.
  destruct s as [| c r]; [congruence |].
  cbn [String.length strings.fieldsFuel]. rewrite E, Hs. f_equal.
  destruct (span_head c r E) as (t' & rest' & Hs'). rewrite Hs in Hs'.
  injection Hs' as -> ->.
  destruct (span_spec _ _ _ Hs) as (Happ & _ & _).
  apply (f_equal String.length) in Happ. rewrite length_app in Happ.
  cbn [String.length] in *. apply fieldsFuel_enough; lia.
Qed.

Lemma Fields_whiteRun w : whiteRun w -> forall x, strings.Fields (w ++ x) = strings.Fields x.
Proof.
  induction 1 as [| c w Hc Hw IH]; intros x; [reflexivity |].
  rewrite app_assoc_s.
  pose proof (spaceLen_app c (w ++ x) Hc) as E.
  destruct Hc as [Hne Hc'].
  destruct (String.length c) as [| k] eqn:Hk; [destruct c; [congruence | discriminate] |].
  rewrite (Fields_space _ k E), <- Hk, sdrop_app_length. apply IH.
Qed.

Lemma span_unique : forall t rest,
  noSpaceIn t rest ->
  rest = "" \/ unicode.spaceLen rest <> 0%nat ->
  strings.span (t ++ rest) = (t, rest).
Proof.
  induction t as [| c t IH]; intros rest Hno Hrest.
  - change ("" ++ rest) with rest.
    destruct rest as [| c r]; [reflexivity |].
    destruct Hrest as [Hr | Hr]; [discriminate |].
    cbn [strings.span]. destruct (unicode.spaceLen (String c r)); [congruence | reflexivity].
  - rewrite app_cons. cbn [strings.span].
    pose proof (Hno 0%nat) as H0. rewrite app_cons in H0. cbn [sdrop String.length] in H0.
    rewrite H0 by lia.
    rewrite IH; [reflexivity | | exact Hrest].
    intros i Hi. specialize (Hno (S i)). rewrite app_cons in Hno. cbn [sdrop] in Hno.
    apply Hno. cbn [String.length]. lia.
Qed.

(** The fields of a line are determined by [FieldsOf]. *)
Lemma FieldsOf_unique s fs : FieldsOf s fs -> fs = strings.Fields s.
Proof.
  induction 1 as [w Hw | w t rest fs Hw Ht Hno Hrest Hfs IH].
  - rewrite <- (app_empty_r w), (Fields_whiteRun w Hw). reflexivity.
  - rewrite (Fields_whiteRun w Hw).
    rewrite (Fields_token (t ++ rest) t rest).
    + now rewrite IH.
    + destruct t; [congruence | discriminate].
    + specialize (Hno 0%nat). cbn [sdrop] in Hno. apply Hno.
      destruct t; [congruence | cbn; lia].
    + now apply span_unique.
Qed.

(** ** Texts without white space *)

Lemma revOnto_srev : forall s acc, srev (revOnto s acc) = revOnto acc s.
Proof.
  induction s as [| c r IH]; intros acc; [reflexivity |].
  cbn [revOnto]. now rewrite IH.
Qed.

Lemma srev_involutive s : srev (srev s) = s.
Proof. unfold srev at 2. now rewrite revOnto_srev. Qed.

Lemma revOnto_app : forall s t acc, revOnto (s ++ t) acc = revOnto t (revOnto s acc).
Proof.
  induction s as [| c r IH]; intros t acc; [reflexivity |].
  rewrite app_cons. cbn [revOnto]. apply IH.
Qed.

(** A byte below 128 that is not in [asciiSpace] starts no white space and
    ends none. *)
Definition plainByte (c : ascii) : Prop :=
  (code c < 128)%N /\ unicode.isAsciiSpace c = false.

Lemma spaceLen_plain c r : plainByte c -> unicode.spaceLen (String c r) = 0%nat.
Proof.
  intros [Hc Hs]. unfold unicode.spaceLen. rewrite Hs.
  assert (H2 : forall b, unicode.isSpace2 (code c) b = false).
  { intros b. unfold unicode.isSpace2.
    destruct (N.eqb_spec (code c) 194); [lia | reflexivity]. }
  assert (H3 : forall b b', unicode.isSpace3 (code c) b b' = false).
  { intros b b'. unfold unicode.isSpace3.
    destruct (N.eqb_spec (code c) 225), (N.eqb_spec (code c) 226),
      (N.eqb_spec (code c) 227); try lia; reflexivity. }
  destruct r as [| c1 [| c2 r]]; rewrite ?H2, ?H3; reflexivity.
Qed.

Lemma spaceLenRev_plain c r : plainByte c -> unicode.spaceLenRev (String c r) = 0%nat.
Proof.
  intros [Hc Hs]. unfold unicode.spaceLenRev. rewrite Hs.
  assert (H2 : forall b, unicode.isSpace2 b (code c) = false).
  { intros b. unfold unicode.isSpace2.
    destruct (N.eqb_spec (code c) 133), (N.eqb_spec (code c) 160);
      first [lia | now rewrite andb_false_r]. }
  assert (H3 : forall b b', unicode.isSpace3 b b' (code c) = false).
  { intros b b'. unfold unicode.isSpace3.
    assert (Hne : forall x, (128 <= x)%N -> (code c =? x)%N = false)
      by (intros x Hx; apply N.eqb_neq; lia).
    rewrite !Hne by lia.
    replace (128 <=? code c)%N with false by (symmetry; apply N.leb_gt; lia).
    destruct (b =? 225)%N, (b' =? 154)%N, (b =? 226)%N, (b' =? 128)%N, (b' =? 129)%N,
      (b =? 227)%N; reflexivity. }
  destruct r as [| c1 [| c2 r]]; rewrite ?H2, ?H3; reflexivity.
Qed.

Lemma trimLeft_id s : unicode.spaceLen s = 0%nat -> strings.trimLeft s = s.
Proof.
  intros H. unfold strings.trimLeft.
  destruct (String.length s); cbn [strings.trimLeftFuel]; [reflexivity | now rewrite H].
Qed.

Lemma trimRight_id s : unicode.spaceLenRev (srev s) = 0%nat -> strings.trimRight s = s.
Proof.
  intros H. unfold strings.trimRight.
  destruct (String.length s); cbn [strings.trimRightRevFuel]; rewrite ?H;
    apply srev_involutive.
Qed.

(** A text that starts and ends with plain bytes is its own [TrimSpace]. *)
Lemma TrimSpace_id c r c' r' :
  plainByte c -> plainByte c' -> srev (String c r) = String c' r' ->
  strings.TrimSpace (String c r) = String c r.
Proof.
  intros Hc Hc' Hrev. unfold strings.TrimSpace.
  rewrite trimLeft_id by now apply spaceLen_plain.
  apply trimRight_id. rewrite Hrev. now apply spaceLenRev_plain.
Qed.

(** ** Decimal digits *)

Lemma isDigit_plain c : strconv.isDigit c = true -> plainByte c.
Proof.
  unfold strconv.isDigit, plainByte, unicode.isAsciiSpace. intros H.
  apply andb_true_iff in H as [H1 H2]. apply N.leb_le in H1, H2.
  split; [lia |].
  destruct (N.eqb_spec (code c) 9), (N.eqb_spec (code c) 10), (N.eqb_spec (code c) 11),
    (N.eqb_spec (code c) 12), (N.eqb_spec (code c) 13), (N.eqb_spec (code c) 32);
    try lia; reflexivity.
Qed.

Lemma allDigits_string_of_uint d : allDigits (NilEmpty.string_of_uint d) = true.
Proof. induction d; cbn [NilEmpty.string_of_uint allDigits]; try rewrite IHd; reflexivity. Qed.

Lemma to_uint_nonnil k : Nat.to_uint k <> Decimal.Nil.
Proof.
  rewrite <- (DecimalNat.Unsigned.of_to k) at 1.
  rewrite DecimalNat.Unsigned.to_of. apply DecimalFacts.unorm_nonnil.
Qed.

Lemma decimal_digits k : allDigits (decimal k) = true /\ decimal k <> "".
Proof.
  split; [apply allDigits_string_of_uint |].
  unfold decimal. pose proof (to_uint_nonnil k) as H.
  destruct (Nat.to_uint k); [congruence | | | | | | | | | |]; discriminate.
Qed.

Lemma digitsVal_string_of_uint d : forall acc,
  0 <= acc ->
  strconv.digitsVal (NilEmpty.string_of_uint d) acc
  = Some (Z.of_nat (Nat.of_uint_acc d (Z.to_nat acc))).
Proof.
  induction d; intros acc Hacc; cbn [NilEmpty.string_of_uint strconv.digitsVal Nat.of_uint_acc];
    [f_equal; lia | ..];
    match goal with
    | |- context [strconv.isDigit ?c] =>
      replace (strconv.isDigit c) with true by reflexivity
    end;
    (rewrite IHd by lia); do 3 f_equal; rewrite Nat.tail_mul_spec;
    match goal with
    | |- context [Z.of_N ?x] =>
      let v := eval vm_compute in (Z.of_N x) in change (Z.of_N x) with v
    end; lia.
Qed.

Lemma Atoi_decimal k :
  Z.of_nat k < 2 ^ 63 -> strconv.Atoi (decimal k) = Some (Z.of_nat k).
Proof.
  intros Hk. destruct (decimal_digits k) as [Hd Hne].
  pose proof (digitsVal_string_of_uint (Nat.to_uint k) 0 (Z.le_refl 0)) as Hv.
  change (Nat.of_uint_acc (Nat.to_uint k) (Z.to_nat 0)) with (Nat.of_uint (Nat.to_uint k)) in Hv.
  rewrite DecimalNat.Unsigned.of_to in Hv. fold (decimal k) in Hv.
  unfold strconv.Atoi. destruct (decimal k) as [| c r] eqn:E; [congruence |].
  cbn [allDigits] in Hd. apply andb_true_iff in Hd as [Hc _].
  assert (Hsign : (code c =? 45)%N = false /\ (code c =? 43)%N = false).
  { unfold strconv.isDigit in Hc. apply andb_true_iff in Hc as [H1 H2].
    apply N.leb_le in H1, H2.
    destruct (N.eqb_spec (code c) 45), (N.eqb_spec (code c) 43);
      first [lia | now split]. }
  destruct Hsign as [-> ->]. cbn [orb]. rewrite Hv.
  replace (- 2 ^ 63 <=? Z.of_nat k) with true by (symmetry; apply Z.leb_le; lia).
  replace (Z.of_nat k <=? 2 ^ 63 - 1) with true by (symmetry; apply Z.leb_le; lia).
  reflexivity.
Qed.

(** * Properties of the interpreter *)

(** ** Statements never fail *)

Lemma Statement_Execute_nil_error rt s ctx vars out :
  snd (Statement_Execute rt s ctx vars out) = None.
Proof.
  destruct s as [fields | name expr]; [destruct fields |]; reflexivity.
Qed.

Lemma execStatements_nil_error rt stmts :
  forall ctx vars out, snd (execStatements rt stmts ctx vars out) = None.
Proof.
  induction stmts as [| stmt rest IH]; intros ctx vars out; simpl.
  - reflexivity.
  - pose proof (Statement_Execute_nil_error rt stmt ctx vars out) as Hs.
    destruct (Statement_Execute rt stmt ctx vars out) as [[vars' out'] err].
    simpl in Hs. subst err. apply IH.
Qed.

Lemma Action_Execute_nil_error rt a ctx out :
  snd (Action_Execute rt a ctx out) = None.
Proof.
  unfold Action_Execute.
  pose proof (execStatements_nil_error rt (Statements a) ctx
                (match Variables a with None => ∅ | Some m => m end) out) as Hs.
  destruct (execStatements rt (Statements a) ctx _ out) as [[vars' out'] err].
  exact Hs.
Qed.

Lemma scanLoop_cons_rule rt p a line rest ctx out :
  scanLoop rt (line :: rest) [{| RulePattern := Some p; RuleAction := a |}] ctx out
  = if Match rt p (nextRecord ctx line) then
      let '(a', out', _) := Action_Execute rt a (nextRecord ctx line) out in
      scanLoop rt rest [{| RulePattern := Some p; RuleAction := a' |}]
               (nextRecord ctx line) out'
    else scanLoop rt rest [{| RulePattern := Some p; RuleAction := a |}]
                  (nextRecord ctx line) out.
Proof.
  cbn [scanLoop execRules RulePattern RuleAction].
  destruct (Match rt p (nextRecord ctx line)); [| reflexivity].
  pose proof (Action_Execute_nil_error rt a (nextRecord ctx line) out) as Herr.
  destruct (Action_Execute rt a (nextRecord ctx line) out) as [[a' out'] err].
  cbn [snd] in Herr. subst err. reflexivity.
Qed.

Lemma Action_Execute_print rt v ctx out :
  Action_Execute rt (printAction v) ctx out
  = (printAction (Some (match v with None => ∅ | Some m => m end)),
     (out ++ [Line ctx])%list, None).
Proof. reflexivity. Qed.

(** ** The sink is only appended to *)

Lemma Statement_Execute_frame rt s ctx vars out :
  Statement_Execute rt s ctx vars out
  = let '(vars', added, err) := Statement_Execute rt s ctx vars [] in
    (vars', (out ++ added)%list, err).
Proof.
  destruct s as [fields | name expr]; [destruct fields |]; cbn; unfold Println;
    now rewrite ?app_nil_r.
Qed.

Lemma execStatements_frame rt stmts :
  forall ctx vars out,
    execStatements rt stmts ctx vars out
    = let '(vars', added, err) := execStatements rt stmts ctx vars [] in
      (vars', (out ++ added)%list, err).
Proof.
  induction stmts as [| stmt rest IH]; intros ctx vars out; cbn [execStatements].
  - now rewrite app_nil_r.
  - rewrite (Statement_Execute_frame rt stmt ctx vars out).
    destruct (Statement_Execute rt stmt ctx vars []) as [[vars1 added1] err1].
    destruct err1 as [msg |]; [reflexivity |].
    rewrite (IH ctx vars1 (out ++ added1)%list), (IH ctx vars1 added1).
    destruct (execStatements rt rest ctx vars1 []) as [[vars2 added2] err2].
    now rewrite app_assoc.
Qed.

Lemma Action_Execute_frame rt a ctx out :
  Action_Execute rt a ctx out
  = let '(a', added, err) := Action_Execute rt a ctx [] in
    (a', (out ++ added)%list, err).
Proof.
  unfold Action_Execute.
  rewrite (execStatements_frame rt (Statements a) ctx _ out).
  destruct (execStatements rt (Statements a) ctx _ []) as [[vars' added] err].
  reflexivity.
Qed.

Lemma execRules_frame rt rules :
  forall ctx out,
    execRules rt rules ctx out
    = let '(rules', added, err) := execRules rt rules ctx [] in
      (rules', (out ++ added)%list, err).
Proof.
  induction rules as [| rule rest IH]; intros ctx out; cbn [execRules].
  - now rewrite app_nil_r.
  - destruct (match RulePattern rule with None => true | Some p => Match rt p ctx end).
    + rewrite (Action_Execute_frame rt (RuleAction rule) ctx out).
      destruct (Action_Execute rt (RuleAction rule) ctx []) as [[a1 added1] err1].
      destruct err1 as [msg |]; [reflexivity |].
      rewrite (IH ctx (out ++ added1)%list), (IH ctx added1).
      destruct (execRules rt rest ctx []) as [[rest2 added2] err2].
      now rewrite app_assoc.
    + rewrite (IH ctx out).
      destruct (execRules rt rest ctx []) as [[rest2 added2] err2]. reflexivity.
Qed.

Lemma scanLoop_frame rt lines :
  forall rules ctx out,
    scanLoop rt lines rules ctx out
    = let '(rules', ctx', added, err) := scanLoop rt lines rules ctx [] in
      (rules', ctx', (out ++ added)%list, err).
Proof.
  induction lines as [| line rest IH]; intros rules ctx out; cbn [scanLoop].
  - now rewrite app_nil_r.
  - rewrite (execRules_frame rt rules (nextRecord ctx line) out).
    destruct (execRules rt rules (nextRecord ctx line) []) as [[rules1 added1] err1].
    destruct err1 as [msg |]; [reflexivity |].
    rewrite (IH rules1 (nextRecord ctx line) (out ++ added1)%list),
            (IH rules1 (nextRecord ctx line) added1).
    destruct (scanLoop rt rest rules1 (nextRecord ctx line) []) as [[[rules2 ctx2] added2] err2].
    now rewrite app_assoc.
Qed.

Lemma processInput_frame rt reader opts out :
  processInput rt reader opts out
  = ((out ++ fst (processInput rt reader opts []))%list,
     snd (processInput rt reader opts [])).
Proof.
  unfold processInput.
  destruct (parseProgram rt (ProgramText opts)) as [program | msg];
    [| cbn; now rewrite app_nil_r].
  assert (Htail : forall added0,
    (let '(_, ctx, out1, err) :=
       scanLoop rt (tokens reader) (Rules program) (newContext opts) (out ++ added0)%list in
     match err with
     | Some msg => (out1, Some msg)
     | None =>
       match scanErr reader with
       | Some msg => (out1, Some msg)
       | None =>
         match End_ program with
         | None => (out1, None)
         | Some end_ => let '(_, out', err) := Action_Execute rt end_ ctx out1 in (out', err)
         end
       end
     end)
    = (let r :=
         let '(_, ctx, out1, err) :=
           scanLoop rt (tokens reader) (Rules program) (newContext opts) added0 in
         match err with
         | Some msg => (out1, Some msg)
         | None =>
           match scanErr reader with
           | Some msg => (out1, Some msg)
           | None =>
             match End_ program with
             | None => (out1, None)
             | Some end_ => let '(_, out', err) := Action_Execute rt end_ ctx out1 in (out', err)
             end
           end
         end in
       ((out ++ fst r)%list, snd r))).
  { intros added0.
    rewrite (scanLoop_frame rt (tokens reader) (Rules program) (newContext opts)
               (out ++ added0)%list),
            (scanLoop_frame rt (tokens reader) (Rules program) (newContext opts) added0).
    destruct (scanLoop rt (tokens reader) (Rules program) (newContext opts) [])
      as [[[rules1 ctx1] added1] err1].
    destruct err1 as [msg |]; [cbn; now rewrite app_assoc |].
    destruct (scanErr reader) as [msg |]; [cbn; now rewrite app_assoc |].
    destruct (End_ program) as [end_ |]; [| cbn; now rewrite app_assoc].
    rewrite (Action_Execute_frame rt end_ ctx1 ((out ++ added0) ++ added1)%list),
            (Action_Execute_frame rt end_ ctx1 (added0 ++ added1)%list).
    destruct (Action_Execute rt end_ ctx1 []) as [[a2 added2] err2].
    cbn. now rewrite !app_assoc. }
  destruct (Begin program) as [begin |].
  - rewrite (Action_Execute_frame rt begin (newContext opts) out).
    destruct (Action_Execute rt begin (newContext opts) []) as [[a1 added0] err0].
    destruct err0 as [msg |]; [reflexivity |].
    exact (Htail added0).
  - specialize (Htail []). rewrite app_nil_r in Htail. exact Htail.
Qed.

(** * Main theorems *)

(** ** The program [{ sum+=$1 } END { print sum }] *)

Lemma parse_sum rt :
  parseProgram rt "{ sum+=$1 } END { print sum }" = Ok sumProgram.
Proof. vm_compute. reflexivity. Qed.

(** The same program as the help text of the command writes it. *)
Lemma parse_sum_help rt :
  parseProgram rt "{sum+=$1} END {print sum}" = Ok sumProgram.
Proof. vm_compute. reflexivity. Qed.

Lemma scanLoop_sum rt lines :
  forall v ctx out,
    exists v' ctx',
      scanLoop rt lines [sumRule v] ctx out = ([sumRule v'], ctx', out, None).
Proof.
  induction lines as [| line rest IH]; intros v ctx out.
  - exists v, ctx. reflexivity.
  - cbn [scanLoop execRules sumRule RulePattern RuleAction Match].
    unfold Action_Execute.
    cbn [sumAction Statements Variables execStatements Statement_Execute].
    match goal with
    | |- context [scanLoop rt rest [?r] ?c out] =>
      match r with
      | context [Some ?m] =>
        destruct (IH (Some m) c out) as (v' & ctx' & E)
      end
    end.
    exists v', ctx'. unfold sumRule, sumAction in E. exact E.
Qed.

Lemma run_sumProgram rt text lines fs out :
  parseProgram rt text = Ok sumProgram ->
  processInput rt {| tokens := lines; scanErr := None |}
               {| FieldSeparator := fs; ProgramText := text |} out
  = ((out ++ [fmt_Sprint rt 0%float])%list, None).
Proof.
  intros Hp. unfold processInput. cbn [ProgramText tokens scanErr]. rewrite Hp.
  cbn [sumProgram Begin Rules End_].
  destruct (scanLoop_sum rt lines None
              (newContext {| FieldSeparator := fs; ProgramText := text |}) out)
    as (v' & ctx' & E).
  rewrite E. reflexivity.
Qed.

(** C1. What the code does on the summing program, for every input and every
    separator: the END action reads its own, empty map, so the run prints the
    rendering of 0 once, whatever the rule accumulated. This holds for the
    program as the claim writes it and as the help text of the command does. *)
Theorem end_action_does_not_see_rule_variables rt lines fs out :
  processInput rt {| tokens := lines; scanErr := None |}
               {| FieldSeparator := fs; ProgramText := "{ sum+=$1 } END { print sum }" |} out
  = ((out ++ [fmt_Sprint rt 0%float])%list, None)
  /\ processInput rt {| tokens := lines; scanErr := None |}
               {| FieldSeparator := fs; ProgramText := "{sum+=$1} END {print sum}" |} out
  = ((out ++ [fmt_Sprint rt 0%float])%list, None).
Proof.
  split; apply run_sumProgram; [apply parse_sum | apply parse_sum_help].
Qed.

(** On the lines 3, 4 x, abc the run prints 0, not 7. *)
Example sum_example_prints_zero :
  processInput sample.runtime {| tokens := ["3"; "4 x"; "abc"]; scanErr := None |}
               {| FieldSeparator := " "; ProgramText := "{ sum+=$1 } END { print sum }" |} []
  = (["0"], None).
Proof. vm_compute. reflexivity. Qed.

(** ** Empty rule text *)

(** C2, as stated, fails: the empty program text has no BEGIN, no END and an
    empty remainder, and it parses. *)
Lemma empty_program_is_accepted :
  ~ (forall rt prog begin end_,
        sections prog = Ok (begin, end_, "") ->
        (fails (parseProgram rt prog) <-> begin = None /\ end_ = None)).
Proof.
  intros H.
  destruct (H sample.runtime "" None None eq_refl) as [_ H2].
  destruct (H2 (conj eq_refl eq_refl)) as [msg Hm].
  vm_compute in Hm. discriminate Hm.
Qed.

(** C2, amended. An empty remainder is never an error: with or without a
    BEGIN or END section, the program parses and has no rule. *)
Theorem empty_remainder_yields_no_rule rt prog begin end_ :
  sections prog = Ok (begin, end_, "") ->
  parseProgram rt prog = Ok {| Begin := begin; Rules := []; End_ := end_ |}.
Proof.
  unfold sections, parseProgram. intros H.
  destruct (parseBegin (strings.TrimSpace prog)) as [[b rest] | msg]; cbn [bind] in *;
    [| discriminate H].
  destruct (parseEnd rest) as [[e rest'] | msg]; cbn [bind] in *; [| discriminate H].
  injection H as -> -> ->. reflexivity.
Qed.

Lemma empty_remainder_yields_no_rule_witness :
  parseProgram sample.runtime "" = Ok {| Begin := None; Rules := []; End_ := None |}
  /\ parseProgram sample.runtime "BEGIN { print }"
     = Ok {| Begin := Some (printAction None); Rules := []; End_ := None |}
  /\ parseProgram sample.runtime "END { x+=$1 }"
     = Ok {| Begin := None; Rules := [];
             End_ := Some {| Statements :=
                               [AssignStatement "x"
                                  (BinaryExpression (VariableExpression "x") "+"
                                     (FieldExpression 1))];
                             Variables := None |} |}.
Proof.
  split; [| split].
  - apply (empty_remainder_yields_no_rule sample.runtime "" None None). reflexivity.
  - apply (empty_remainder_yields_no_rule sample.runtime "BEGIN { print }"
             (Some (printAction None)) None).
    vm_compute. reflexivity.
  - apply (empty_remainder_yields_no_rule sample.runtime "END { x+=$1 }" None).
    vm_compute. reflexivity.
Defined.

(** ** Field splitting *)

(** C3. With the separator " " the fields are the maximal runs of characters
    that are not white space, and nothing else is: [FieldsOf] holds of the
    result and of no other list. With any other separator the line is cut at
    the instances of the separator and nothing is dropped: the fields joined
    by the separator give the line back, and for a non-empty separator there
    is at least one field and no field contains the separator. *)
Theorem split_fields_by_separator :
  (forall line fs, FieldsOf line fs <-> splitFields line " " = fs)
  /\ splitFields "a   b  c" " " = ["a"; "b"; "c"]
  /\ (forall line sep,
         sep <> " " ->
         splitFields line sep = strings.Split line sep
         /\ strings.Join (splitFields line sep) sep = line
         /\ (sep <> "" ->
             splitFields line sep <> []
             /\ Forall (fun t => strings.Contains t sep = false) (splitFields line sep)))
  /\ splitFields "a,,b" "," = ["a"; ""; "b"].
Proof.
  split; [| split; [reflexivity | split; [| reflexivity]]].
  - intros line fs. change (splitFields line " ") with (strings.Fields line). split.
    + intros H. symmetry. now apply FieldsOf_unique.
    + intros <-. apply Fields_spec.
  - intros line sep Hsep.
    assert (E : splitFields line sep = strings.Split line sep).
    { unfold splitFields. destruct (String.eqb_spec sep " "); [contradiction | reflexivity]. }
    rewrite E. split; [reflexivity |]. split; [apply Join_Split |].
    intros Hne. rewrite Split_nonempty_sep by assumption.
    split; [apply splitLoop_nonempty |].
    eapply Forall_impl; [apply (splitLoop_tokens sep Hne); lia |].
    intros t Ht. unfold strings.Contains. rewrite Ht. reflexivity.
Qed.

Lemma split_fields_by_separator_witness :
  FieldsOf "  a b " ["a"; "b"]
  /\ strings.Join (splitFields "a,,b" ",") "," = "a,,b"
  /\ Forall (fun t => strings.Contains t "::" = false) (splitFields "x::y:z::" "::").
Proof.
  destruct split_fields_by_separator as (Hfields & _ & Hsplit & _).
  split; [| split].
  - apply Hfields. reflexivity.
  - apply (Hsplit "a,,b" ","). discriminate.
  - apply (Hsplit "x::y:z::" "::"); discriminate.
Defined.

(** ** The pattern [NR==k] *)

Lemma wrap_small z : - 2 ^ 63 <= z < 2 ^ 63 -> wrap z = z.
Proof. intros H. unfold wrap. rewrite Z.mod_small; lia. Qed.

Lemma NR_contextAfter lines :
  forall ctx,
    0 <= NR ctx ->
    NR ctx + Z.of_nat (List.length lines) < 2 ^ 63 ->
    NR (contextAfter ctx lines) = NR ctx + Z.of_nat (List.length lines).
Proof.
  induction lines as [| line rest IH]; intros ctx H0 Hn; cbn [contextAfter fold_left].
  - cbn. lia.
  - cbn [List.length] in Hn.
    assert (E : NR (nextRecord ctx line) = NR ctx + 1)
      by (cbn [nextRecord NR]; apply wrap_small; lia).
    change (fold_left nextRecord rest (nextRecord ctx line))
      with (contextAfter (nextRecord ctx line) rest).
    rewrite IH; rewrite E; cbn [List.length]; lia.
Qed.

Lemma contextAfter_snoc ctx lines line :
  contextAfter ctx (lines ++ [line]) = nextRecord (contextAfter ctx lines) line.
Proof. unfold contextAfter. now rewrite fold_left_app. Qed.

Lemma Index_cons_miss a p c r :
  Ascii.eqb a c = false ->
  strings.Index r (String a p) = -1 ->
  strings.Index (String c r) (String a p) = -1.
Proof.
  intros Hac Hr. cbn [strings.Index strings.HasPrefix]. rewrite Hac, Hr. reflexivity.
Qed.

Lemma Index_digits a p : forall ds,
  strconv.isDigit a = false ->
  allDigits ds = true ->
  strings.Index ds (String a p) = -1.
Proof.
  intros ds Ha. induction ds as [| c r IH]; intros Hd; [reflexivity |].
  cbn [allDigits] in Hd. apply andb_true_iff in Hd as [Hc Hr].
  apply Index_cons_miss; [| now apply IH].
  apply Ascii.eqb_neq. intros ->. congruence.
Qed.

Lemma revOnto_digits_head : forall ds acc,
  allDigits ds = true ->
  ds <> "" ->
  exists c r, revOnto ds acc = String c r /\ strconv.isDigit c = true.
Proof.
  induction ds as [| c r IH]; intros acc Hd Hne; [congruence |].
  cbn [allDigits] in Hd. apply andb_true_iff in Hd as [Hc Hr].
  destruct r as [| c' r'].
  - exists c, acc. now split.
  - cbn [revOnto]. apply (IH (String c acc) Hr). discriminate.
Qed.

Lemma TrimSpace_NR ds :
  allDigits ds = true -> ds <> "" -> strings.TrimSpace ("NR==" ++ ds) = "NR==" ++ ds.
Proof.
  intros Hd Hne.
  destruct (revOnto_digits_head ds "==RN" Hd Hne) as (c' & r' & Hrev & Hc').
  change ("NR==" ++ ds) with (String "N" ("R==" ++ ds)).
  apply (TrimSpace_id "N" _ c' r').
  - split; [vm_compute; reflexivity | reflexivity].
  - now apply isDigit_plain.
  - exact Hrev.
Qed.

Lemma Index_NR ds a p :
  strconv.isDigit a = false ->
  Ascii.eqb a "N" = false -> Ascii.eqb a "R" = false -> Ascii.eqb a "=" = false ->
  allDigits ds = true ->
  strings.Index ("NR==" ++ ds) (String a p) = -1.
Proof.
  intros Ha HN HR He Hd.
  change ("NR==" ++ ds) with (String "N" (String "R" (String "=" (String "=" ds)))).
  repeat (apply Index_cons_miss; [assumption |]).
  now apply Index_digits.
Qed.

(** The program text [NR==k], for every line number of the 64-bit range. *)
Lemma parse_NR rt k :
  Z.of_nat k < 2 ^ 63 ->
  parseProgram rt ("NR==" ++ decimal k)
  = Ok {| Begin := None; Rules := [lineRule (Z.of_nat k) defaultAction]; End_ := None |}.
Proof.
  intros Hk. destruct (decimal_digits k) as [Hd Hne].
  pose proof (Atoi_decimal k Hk) as Hatoi.
  set (ds := decimal k) in *.
  assert (Hsp : strings.Index ("NR==" ++ ds) " " = -1) by now apply Index_NR.
  assert (Hend : strings.Index ("NR==" ++ ds) "END" = -1) by now apply Index_NR.
  unfold parseProgram. rewrite (TrimSpace_NR ds Hd Hne).
  assert (Hb : parseBegin ("NR==" ++ ds) = Ok (None, "NR==" ++ ds)) by reflexivity.
  rewrite Hb. cbn [bind].
  unfold parseEnd. rewrite Hend. cbn [Z.leb Z.compare bind].
  assert (Hnonempty : String.eqb ("NR==" ++ ds) "" = false) by reflexivity.
  rewrite Hnonempty. cbn [negb].
  unfold parseRule. rewrite (TrimSpace_NR ds Hd Hne).
  assert (Hslash : strings.HasPrefix ("NR==" ++ ds) "/" = false) by reflexivity.
  rewrite Hslash, (HasPrefix_app "NR==" ds).
  assert (Hsplit : strings.SplitN ("NR==" ++ ds) " " 2 = ["NR==" ++ ds]).
  { unfold strings.SplitN. cbn [Z.eqb String.eqb Ascii.eqb Bool.eqb Z.ltb Z.compare].
    replace (Z.to_nat (Z.min (2 - 1) (len ("NR==" ++ ds)))) with 1%nat.
    - cbn [strings.splitLoop]. now rewrite Hsp.
    - unfold len. rewrite length_app. cbn [String.length]. lia. }
  rewrite Hsplit. cbn [nth List.length].
  unfold strings.TrimPrefix. rewrite (HasPrefix_app "NR==" ds).
  change (String.length "NR==") with 4%nat.
  change (sdrop 4 ("NR==" ++ ds)) with ds.
  rewrite Hatoi. reflexivity.
Qed.

Lemma scanLoop_cons_lineRule rt k line rest a ctx out :
  scanLoop rt (line :: rest) [lineRule k a] ctx out
  = if NR (nextRecord ctx line) =? k then
      let '(a', out', _) := Action_Execute rt a (nextRecord ctx line) out in
      scanLoop rt rest [lineRule k a'] (nextRecord ctx line) out'
    else scanLoop rt rest [lineRule k a] (nextRecord ctx line) out.
Proof. exact (scanLoop_cons_rule rt (LinePattern k) a line rest ctx out). Qed.

(** The loop runs the action of [NR==k] once, on the [k]-th record it reads,
    and not at all when there is no such record. *)
Lemma scanLoop_lineRule rt k lines :
  forall a ctx out,
    0 <= NR ctx ->
    NR ctx + Z.of_nat (List.length lines) < 2 ^ 63 ->
    scanLoop rt lines [lineRule k a] ctx out
    = if (NR ctx <? k) && (k <=? NR ctx + Z.of_nat (List.length lines)) then
        let '(a', out', _) :=
          Action_Execute rt a (contextAfter ctx (firstn (Z.to_nat (k - NR ctx)) lines)) out in
        ([lineRule k a'], contextAfter ctx lines, out', None)
      else ([lineRule k a], contextAfter ctx lines, out, None).
Proof.
  induction lines as [| line rest IH]; intros a ctx out H0 Hn.
  - cbn [scanLoop contextAfter fold_left List.length].
    replace ((NR ctx <? k) && (k <=? NR ctx + Z.of_nat 0)) with false; [reflexivity |].
    symmetry. apply andb_false_iff.
    destruct (Z.ltb_spec (NR ctx) k); [right; apply Z.leb_gt; lia | now left].
  - assert (Hlen : Z.of_nat (List.length (line :: rest)) = Z.of_nat (List.length rest) + 1)
      by (cbn [List.length]; lia).
    rewrite Hlen in Hn |- *.
    assert (E : NR (nextRecord ctx line) = NR ctx + 1)
      by (cbn [nextRecord NR]; apply wrap_small; lia).
    assert (Hall : contextAfter ctx (line :: rest) = contextAfter (nextRecord ctx line) rest)
      by reflexivity.
    rewrite scanLoop_cons_lineRule, E, Hall.
    destruct (Z.eqb_spec (NR ctx + 1) k) as [Hk | Hk].
    + (* the k-th record *)
      replace ((NR ctx <? k) && (k <=? NR ctx + (Z.of_nat (List.length rest) + 1))) with true
        by (symmetry; apply andb_true_iff; split; [apply Z.ltb_lt | apply Z.leb_le]; lia).
      replace (Z.to_nat (k - NR ctx)) with 1%nat by lia.
      change (contextAfter ctx (firstn 1 (line :: rest))) with (nextRecord ctx line).
      destruct (Action_Execute rt a (nextRecord ctx line) out) as [[a' out'] err].
      rewrite IH by (rewrite ?E; lia). rewrite E.
      replace (NR ctx + 1 <? k) with false by (symmetry; apply Z.ltb_ge; lia).
      reflexivity.
    + (* another record *)
      rewrite IH by (rewrite ?E; lia). rewrite E.
      replace ((NR ctx <? k) && (k <=? NR ctx + (Z.of_nat (List.length rest) + 1)))
        with ((NR ctx + 1 <? k) && (k <=? NR ctx + 1 + Z.of_nat (List.length rest))).
      2:{ destruct (Z.ltb_spec (NR ctx + 1) k), (Z.ltb_spec (NR ctx) k),
            (Z.leb_spec k (NR ctx + 1 + Z.of_nat (List.length rest))),
            (Z.leb_spec k (NR ctx + (Z.of_nat (List.length rest) + 1)));
          cbn; try reflexivity; lia. }
      destruct ((NR ctx + 1 <? k) && (k <=? NR ctx + 1 + Z.of_nat (List.length rest))) eqn:Hc;
        [| reflexivity].
      apply andb_true_iff in Hc as [Hc1 Hc2]. apply Z.ltb_lt in Hc1.
      replace (Z.to_nat (k - NR ctx)) with (S (Z.to_nat (k - (NR ctx + 1)))) by lia.
      reflexivity.
Qed.

Lemma firstn_succ_nth : forall j (l : list string),
  (j < List.length l)%nat -> firstn (S j) l = (firstn j l ++ [nth j l ""])%list.
Proof.
  induction j as [| j IH]; intros [| x l] Hl; cbn in *; try lia; try reflexivity.
  f_equal. apply IH. lia.
Qed.

Lemma Line_contextAfter ctx lines i :
  (1 <= i <= List.length lines)%nat ->
  Line (contextAfter ctx (firstn i lines)) = nth (i - 1) lines "".
Proof.
  intros Hi. replace i with (S (i - 1)) at 1 by lia.
  rewrite firstn_succ_nth by lia. rewrite contextAfter_snoc. reflexivity.
Qed.

(** C4. In a run of fewer than 2^63 lines, [NR==k] matches the record with
    number [k] and no other: the pattern holds of the context of the [i]-th
    record exactly when [i = k]; the loop runs the rule's action once, on the
    [k]-th record, when [1 <= k <= n], and never otherwise; and the program
    text [NR==k] prints the [k]-th line and nothing else, nothing at all when
    [k] is 0 or exceeds the number of lines. *)
Theorem line_pattern_matches_kth_record rt k lines :
  Z.of_nat (List.length lines) < 2 ^ 63 ->
  (forall opts i,
      (1 <= i <= List.length lines)%nat ->
      (Match rt (LinePattern k) (contextAfter (newContext opts) (firstn i lines)) = true
       <-> k = Z.of_nat i))
  /\ (forall opts a out,
         scanLoop rt lines [lineRule k a] (newContext opts) out
         = if (1 <=? k) && (k <=? Z.of_nat (List.length lines)) then
             let '(a', out', _) :=
               Action_Execute rt a
                 (contextAfter (newContext opts) (firstn (Z.to_nat k) lines)) out in
             ([lineRule k a'], contextAfter (newContext opts) lines, out', None)
           else ([lineRule k a], contextAfter (newContext opts) lines, out, None))
  /\ (forall j fs err out,
         k = Z.of_nat j ->
         k < 2 ^ 63 ->
         processInput rt {| tokens := lines; scanErr := err |}
                      {| FieldSeparator := fs; ProgramText := "NR==" ++ decimal j |} out
         = ((out ++ (if (1 <=? k) && (k <=? Z.of_nat (List.length lines))
                     then [nth (j - 1) lines ""] else []))%list,
            err)).
Proof.
  intros Hn. split; [| split].
  - intros opts i Hi. cbn [Match].
    rewrite NR_contextAfter; cbn [newContext NR]; rewrite ?length_firstn; try lia.
    rewrite Nat.min_l by lia. rewrite Z.eqb_eq. lia.
  - intros opts a out.
    rewrite scanLoop_lineRule by (cbn [newContext NR]; lia).
    cbn [newContext NR].
    replace (0 <? k) with (1 <=? k)
      by (destruct (Z.ltb_spec 0 k), (Z.leb_spec 1 k); try reflexivity; lia).
    now rewrite Z.add_0_l, Z.sub_0_r.
  - intros j fs err out -> Hj. unfold processInput. cbn [ProgramText].
    rewrite (parse_NR rt j Hj). cbn [Begin Rules End_ tokens scanErr].
    rewrite scanLoop_lineRule by (cbn [newContext NR]; lia).
    cbn [newContext NR].
    replace (0 <? Z.of_nat j) with (1 <=? Z.of_nat j)
      by (destruct (Z.ltb_spec 0 (Z.of_nat j)), (Z.leb_spec 1 (Z.of_nat j));
          try reflexivity; lia).
    rewrite Z.add_0_l, Z.sub_0_r.
    destruct ((1 <=? Z.of_nat j) && (Z.of_nat j <=? Z.of_nat (List.length lines))) eqn:Hc.
    + apply andb_true_iff in Hc as [Hc1 Hc2]. apply Z.leb_le in Hc1, Hc2.
      unfold Action_Execute.
      cbn [defaultAction Statements Variables execStatements Statement_Execute Println].
      rewrite Nat2Z.id, Line_contextAfter by lia.
      destruct err; reflexivity.
    + rewrite app_nil_r. destruct err; reflexivity.
Qed.

Lemma line_pattern_matches_kth_record_witness :
  (Match sample.runtime (LinePattern 2)
         (contextAfter (newContext {| FieldSeparator := " "; ProgramText := "NR==2" |})
                       (firstn 2 ["a"; "b c"; "d"])) = true
   <-> 2 = Z.of_nat 2)
  /\ processInput sample.runtime {| tokens := ["a"; "b c"; "d"]; scanErr := None |}
                  {| FieldSeparator := " "; ProgramText := "NR==2" |} []
     = (["b c"], None)
  /\ processInput sample.runtime {| tokens := ["a"; "b c"; "d"]; scanErr := None |}
                  {| FieldSeparator := " "; ProgramText := "NR==0" |} []
     = ([], None)
  /\ processInput sample.runtime {| tokens := ["a"; "b c"; "d"]; scanErr := None |}
                  {| FieldSeparator := " "; ProgramText := "NR==4" |} []
     = ([], None).
Proof.
  assert (Hlen : Z.of_nat (List.length ["a"; "b c"; "d"]) < 2 ^ 63) by (cbn; lia).
  split; [| split; [| split]].
  - destruct (line_pattern_matches_kth_record sample.runtime 2 ["a"; "b c"; "d"] Hlen)
      as (Hmatch & _ & _).
    apply Hmatch. cbn. lia.
  - destruct (line_pattern_matches_kth_record sample.runtime 2 ["a"; "b c"; "d"] Hlen)
      as (_ & _ & Hrun).
    apply (Hrun 2%nat " " None []); [reflexivity | lia].
  - destruct (line_pattern_matches_kth_record sample.runtime 0 ["a"; "b c"; "d"] Hlen)
      as (_ & _ & Hrun).
    apply (Hrun 0%nat " " None []); [reflexivity | lia].
  - destruct (line_pattern_matches_kth_record sample.runtime 4 ["a"; "b c"; "d"] Hlen)
      as (_ & _ & Hrun).
    apply (Hrun 4%nat " " None []); [reflexivity | lia].
Defined.

(** ** Expressions default to zero *)



(** ** Parse errors *)

(** C6. When the program text does not parse, [processInput] returns the parse
    error with the sink as it found it: no line is read and no action, BEGIN
    included, has run. An action text that does not end with a closing brace
    does not parse, and a BEGIN block that compiles does not save a program
    whose END block does not. *)
Theorem parse_failure_is_atomic rt :
  (forall reader opts out msg,
      parseProgram rt (ProgramText opts) = Err msg ->
      processInput rt reader opts out = (out, Some msg))
  /\ (forall actionStr,
         strings.HasSuffix (strings.TrimSpace actionStr) "}" = false ->
         parseAction actionStr = Err "action must be enclosed in braces")
  /\ (forall prog begin rest msg,
         parseBegin (strings.TrimSpace prog) = Ok (begin, rest) ->
         parseEnd rest = Err msg ->
         parseProgram rt prog = Err msg).
Proof.
  split; [| split].
  - intros reader opts out msg Hp. unfold processInput. rewrite Hp. reflexivity.
  - intros actionStr Hs. unfold parseAction. rewrite Hs. cbn [negb].
    now rewrite orb_true_r.
  - intros prog begin rest msg Hb He. unfold parseProgram. rewrite Hb. cbn [bind].
    rewrite He. reflexivity.
Qed.

Lemma parse_failure_is_atomic_witness :
  processInput sample.runtime {| tokens := ["a"; "b"]; scanErr := None |}
               {| FieldSeparator := " "; ProgramText := "BEGIN { print } { print } END { print" |} []
  = ([], Some "action must be enclosed in braces")
  /\ processInput sample.runtime {| tokens := ["a"; "b"]; scanErr := None |}
               {| FieldSeparator := " "; ProgramText := "{ print $1" |} []
     = ([], Some "action must be enclosed in braces")
  /\ parseAction "{ print $1" = Err "action must be enclosed in braces"
  /\ parseProgram sample.runtime "BEGIN { print } { print } END { print"
     = Err "action must be enclosed in braces".
Proof.
  destruct (parse_failure_is_atomic sample.runtime) as (Hrun & Haction & Hend).
  split; [| split; [| split]].
  - apply Hrun. vm_compute. reflexivity.
  - apply Hrun. vm_compute. reflexivity.
  - apply Haction. vm_compute. reflexivity.
  - apply (Hend _ (Some (printAction None)) "{ print } END { print"); vm_compute; reflexivity.
Defined.

(** ** Regular-expression rules *)

Lemma scanLoop_regex_print rt re lines :
  forall v ctx out,
    exists v' ctx',
      scanLoop rt lines [regexRule re (printAction v)] ctx out
      = ([regexRule re (printAction v')], ctx',
         (out ++ List.filter (regexp_MatchString rt re) lines)%list, None).
Proof.
  induction lines as [| line rest IH]; intros v ctx out.
  - exists v, ctx. cbn. now rewrite app_nil_r.
  - unfold regexRule at 1. rewrite scanLoop_cons_rule.
    cbn [Match nextRecord Line List.filter].
    destruct (regexp_MatchString rt re line).
    + rewrite Action_Execute_print. cbn [nextRecord Line].
      destruct (IH (Some (match v with None => ∅ | Some m => m end))
                   (nextRecord ctx line) (out ++ [line])%list) as (v' & ctx' & E).
      exists v', ctx'. unfold regexRule in E. cbn [nextRecord] in E. rewrite E.
      now rewrite <- app_assoc.
    + destruct (IH v (nextRecord ctx line) out) as (v' & ctx' & E).
      exists v', ctx'. unfold regexRule in E. cbn [nextRecord] in E. rewrite E.
      reflexivity.
Qed.

Lemma parse_abc rt :
  regexp_Compile rt "abc" = None ->
  parseProgram rt "/abc/"
  = Ok {| Begin := None; Rules := [regexRule "abc" (printAction None)]; End_ := None |}.
Proof.
  destruct rt as [compile matchString parseFloat sprint]. cbn [regexp_Compile].
  intros Hc. unfold parseProgram.
  replace (strings.TrimSpace "/abc/") with "/abc/" by (vm_compute; reflexivity).
  replace (parseBegin "/abc/") with (@Ok (option Action * string) (None, "/abc/"))
    by (vm_compute; reflexivity).
  cbn [bind].
  replace (parseEnd "/abc/") with (@Ok (option Action * string) (None, "/abc/"))
    by (vm_compute; reflexivity).
  cbn [bind String.eqb Ascii.eqb Bool.eqb negb].
  unfold parseRule.
  replace (strings.TrimSpace "/abc/") with "/abc/" by (vm_compute; reflexivity).
  cbn [strings.HasPrefix Ascii.eqb Bool.eqb andb].
  replace (strings.Index (sliceFrom "/abc/" 1) "/") with 3 by (vm_compute; reflexivity).
  cbn [Z.eqb Pos.eqb].
  replace (slice "/abc/" 1 (3 + 1)) with "abc" by (vm_compute; reflexivity).
  cbn [regexp_Compile]. rewrite Hc.
  replace (strings.TrimSpace (sliceFrom "/abc/" (3 + 2))) with "" by (vm_compute; reflexivity).
  reflexivity.
Qed.

Lemma parseRuleAction_pattern p ruleStr rule :
  parseRuleAction p ruleStr = Ok rule -> RulePattern rule = Some p.
Proof.
  unfold parseRuleAction. destruct (negb (String.eqb ruleStr "")).
  - destruct (parseAction ruleStr) as [a | msg]; cbn [bind]; [| discriminate].
    now intros [= <-].
  - now intros [= <-].
Qed.

(** What [parseRule] does on a text that starts with a slash. *)
Lemma parseRule_slash rt ruleStr body :
  strings.TrimSpace ruleStr = String "/" body ->
  parseRule rt ruleStr
  = let endIdx := strings.Index body "/" in
    if endIdx =? -1 then Err "missing closing / for pattern"
    else
      let patternStr := stake (Z.to_nat endIdx) body in
      match regexp_Compile rt patternStr with
      | Some msg => Err ("invalid regex: " ++ msg)
      | None =>
        parseRuleAction (RegexPattern patternStr)
                        (strings.TrimSpace (sliceFrom (String "/" body) (endIdx + 2)))
      end.
Proof.
  intros Ht. unfold parseRule. rewrite Ht.
  assert (Hp : strings.HasPrefix (String "/" body) "/" = true) by reflexivity.
  rewrite Hp.
  change (sliceFrom (String "/" body) 1) with body.
  cbv zeta. destruct (strings.Index body "/" =? -1); [reflexivity |].
  unfold slice. rewrite Z.add_simpl_r.
  change (sdrop (Z.to_nat 1) (String "/" body)) with body.
  reflexivity.
Qed.

(** C7. A rule text that starts with a slash is cut at the next slash: without
    one the rule is refused, and so it is when the text between does not
    compile; otherwise the rule's pattern is that expression. The pattern is
    matched, unanchored, against the whole current line, so [/abc/] without an
    action prints the lines that contain abc and no other. *)
Theorem regex_rule_compiles_and_searches rt :
  (forall ruleStr body,
      strings.TrimSpace ruleStr = String "/" body ->
      (strings.Index body "/" = -1 ->
       parseRule rt ruleStr = Err "missing closing / for pattern")
      /\ (0 <= strings.Index body "/" ->
          let pat := stake (Z.to_nat (strings.Index body "/")) body in
          body = pat ++ "/" ++ sdrop (Z.to_nat (strings.Index body "/") + 1) body
          /\ strings.Contains pat "/" = false
          /\ (forall msg,
                 regexp_Compile rt pat = Some msg ->
                 parseRule rt ruleStr = Err ("invalid regex: " ++ msg))
          /\ (regexp_Compile rt pat = None ->
              forall rule,
                parseRule rt ruleStr = Ok rule -> RulePattern rule = Some (RegexPattern pat))))
  /\ (forall re ctx,
         Match rt (RegexPattern re) ctx = regexp_MatchString rt re (Line ctx))
  /\ (regexp_Compile rt "abc" = None ->
      (forall line, regexp_MatchString rt "abc" line = strings.Contains line "abc") ->
      forall reader fs out,
        processInput rt reader {| FieldSeparator := fs; ProgramText := "/abc/" |} out
        = ((out ++ List.filter (fun line => strings.Contains line "abc") (tokens reader))%list,
           scanErr reader)).
Proof.
  split; [| split].
  - intros ruleStr body Ht. rewrite (parseRule_slash rt ruleStr body Ht). cbv zeta. split.
    + intros ->. reflexivity.
    + intros Hi.
      replace (strings.Index body "/" =? -1) with false by (symmetry; apply Z.eqb_neq; lia).
      split; [exact (Index_cut "/" body Hi) |]. split.
      * unfold strings.Contains. rewrite Index_prefix_free by (assumption || discriminate).
        reflexivity.
      * split.
        -- intros msg ->. reflexivity.
        -- intros -> rule Hr. now apply parseRuleAction_pattern in Hr.
  - reflexivity.
  - intros Hc Hm reader fs out. unfold processInput. cbn [ProgramText].
    rewrite (parse_abc rt Hc). cbn [Begin Rules End_].
    destruct (scanLoop_regex_print rt "abc" (tokens reader) None
                (newContext {| FieldSeparator := fs; ProgramText := "/abc/" |}) out)
      as (v' & ctx' & E).
    rewrite E.
    rewrite (filter_ext _ _ Hm).
    destruct (scanErr reader); reflexivity.
Qed.

Lemma regex_rule_compiles_and_searches_witness :
  parseRule sample.runtime " /abc" = Err "missing closing / for pattern"
  /\ parseRule sample.runtime "/a+/ { print }" = Err "invalid regex: unsupported expression"
  /\ (forall rule,
         parseRule sample.runtime "/ab/ { print $1 }" = Ok rule ->
         RulePattern rule = Some (RegexPattern "ab"))
  /\ processInput sample.runtime {| tokens := ["xabcx"; "ab c"; "abc"]; scanErr := None |}
                  {| FieldSeparator := " "; ProgramText := "/abc/" |} []
     = (["xabcx"; "abc"], None).
Proof.
  destruct (regex_rule_compiles_and_searches sample.runtime) as (Hparse & _ & Hrun).
  split; [| split; [| split]].
  - apply (Hparse " /abc" "abc"); reflexivity.
  - destruct (Hparse "/a+/ { print }" "a+/ { print }" eq_refl) as [_ H].
    destruct H as (_ & _ & Hbad & _); [vm_compute; discriminate |].
    apply Hbad. reflexivity.
  - destruct (Hparse "/ab/ { print $1 }" "ab/ { print $1 }" eq_refl) as [_ H].
    destruct H as (_ & _ & _ & Hgood); [vm_compute; discriminate |].
    apply Hgood. reflexivity.
  - apply (Hrun eq_refl (fun line => eq_refl)).
Defined.

(** ** The program [{ print }] *)

Lemma parse_print rt :
  parseProgram rt "{ print }"
  = Ok {| Begin := None; Rules := [printRule None]; End_ := None |}.
Proof. vm_compute. reflexivity. Qed.

Lemma scanLoop_print rt lines :
  forall v ctx out,
    exists v' ctx',
      scanLoop rt lines [printRule v] ctx out
      = ([printRule v'], ctx', (out ++ lines)%list, None).
Proof.
  induction lines as [| line rest IH]; intros v ctx out.
  - exists v, ctx. simpl. now rewrite app_nil_r.
  - cbn [scanLoop execRules printRule RulePattern RuleAction Match].
    unfold Action_Execute. cbn [printAction Statements Variables execStatements
      Statement_Execute nextRecord Line Println].
    destruct (IH (Some (match v with None => ∅ | Some m => m end))
                 (nextRecord ctx line) (Println out line)) as (v' & ctx' & E).
    exists v', ctx'. unfold printRule, printAction in E. rewrite E.
    unfold Println. now rewrite <- app_assoc.
Qed.

(** C8. Running [{ print }] prints the input lines, one for one and in their
    order: the sink grows by exactly the lines the scanner yielded, and the
    run's error is the one of the scanner. *)
Theorem print_program_copies_input rt reader fs out :
  processInput rt reader {| FieldSeparator := fs; ProgramText := "{ print }" |} out
  = ((out ++ tokens reader)%list, scanErr reader).
Proof.
  unfold processInput. cbn [ProgramText]. rewrite parse_print. cbn [Begin Rules End_].
  destruct (scanLoop_print rt (tokens reader) None
              (newContext {| FieldSeparator := fs; ProgramText := "{ print }" |}) out)
    as (v' & ctx' & E).
  rewrite E. destruct (scanErr reader); reflexivity.
Qed.

(** ** Independent runs *)

(** C9. A run reads nothing that an earlier run left behind: what it prints
    and the error it returns are the same whatever has been printed before,
    and the command run on the same input twice prints the same lines twice. *)
Theorem runs_do_not_leak_state rt reader opts :
  exists added err,
    (forall out, processInput rt reader opts out = ((out ++ added)%list, err))
    /\ (forall out,
           processAll rt [reader; reader] opts out
           = match err with
             | Some msg => ((out ++ added)%list, Some msg)
             | None => ((out ++ added ++ added)%list, None)
             end).
Proof.
  exists (fst (processInput rt reader opts [])), (snd (processInput rt reader opts [])).
  split.
  - intros out. apply processInput_frame.
  - intros out. cbn [processAll].
    rewrite (processInput_frame rt reader opts out).
    destruct (snd (processInput rt reader opts [])) as [msg |] eqn:Herr; [reflexivity |].
    rewrite (processInput_frame rt reader opts (out ++ _)%list), Herr.
    now rewrite app_assoc.
Qed.

(** ** Printing a field list *)




(** * Further properties *)

(** ** What the parser builds *)

Lemma parseAction_fresh actionStr a : parseAction actionStr = Ok a -> freshAction a.
Proof.
  unfold parseAction, freshAction.
  destruct (negb (strings.HasPrefix (strings.TrimSpace actionStr) "{")
            || negb (strings.HasSuffix (strings.TrimSpace actionStr) "}")); [discriminate |].
  destruct (negb (String.eqb _ "")).
  - destruct (parseStatement _) as [stmt | msg]; cbn [bind]; [| discriminate].
    intros [= <-]. cbn. split; [lia | reflexivity].
  - intros [= <-]. cbn. split; [lia | reflexivity].
Qed.

Lemma parseRuleAction_fresh p ruleStr rule :
  parseRuleAction p ruleStr = Ok rule ->
  RulePattern rule = Some p /\ freshAction (RuleAction rule).
Proof.
  unfold parseRuleAction. destruct (negb (String.eqb ruleStr "")).
  - destruct (parseAction ruleStr) as [a | msg] eqn:Ha; cbn [bind]; [| discriminate].
    intros [= <-]. cbn. split; [reflexivity | now apply (parseAction_fresh ruleStr)].
  - intros [= <-]. cbn. split; [reflexivity |]. split; [cbn; lia | reflexivity].
Qed.

Lemma parseRule_fresh rt ruleStr rule :
  parseRule rt ruleStr = Ok rule ->
  RulePattern rule <> None /\ freshAction (RuleAction rule).
Proof.
  unfold parseRule.
  destruct (strings.HasPrefix (strings.TrimSpace ruleStr) "/").
  - destruct (strings.Index _ "/" =? -1); [discriminate |].
    destruct (regexp_Compile rt _); [discriminate |].
    intros H. apply parseRuleAction_fresh in H as [-> H]. now split.
  - destruct (strings.HasPrefix (strings.TrimSpace ruleStr) "NR==").
    + destruct (strconv.Atoi _); [| discriminate].
      intros H. apply parseRuleAction_fresh in H as [-> H]. now split.
    + intros H. apply parseRuleAction_fresh in H as [-> H]. now split.
Qed.

(** X1. Whatever the program text, a program that parses has at most one
    rule; that rule has a pattern; and each of its actions (BEGIN, the
    rule's, END) holds at most one statement and no variable map yet. *)
Theorem parsed_program_shape rt prog p :
  parseProgram rt prog = Ok p ->
  (List.length (Rules p) <= 1)%nat
  /\ Forall (fun rule => RulePattern rule <> None /\ freshAction (RuleAction rule)) (Rules p)
  /\ (forall a, Begin p = Some a -> freshAction a)
  /\ (forall a, End_ p = Some a -> freshAction a).
Proof.
  unfold parseProgram. intros H.
  destruct (parseBegin (strings.TrimSpace prog)) as [[b rest] | msg] eqn:Hb;
    cbn [bind] in H; [| discriminate].
  destruct (parseEnd rest) as [[e rest'] | msg] eqn:He; cbn [bind] in H; [| discriminate].
  assert (Hbegin : forall a, b = Some a -> freshAction a).
  { intros a ->. unfold parseBegin in Hb.
    destruct (strings.HasPrefix (strings.TrimSpace prog) "BEGIN"); [| discriminate].
    destruct (strings.Index _ "}" =? -1); [discriminate |].
    destruct (parseAction _) as [a' | msg] eqn:Ha; cbn [bind] in Hb; [| discriminate].
    injection Hb as <- _. now apply parseAction_fresh in Ha. }
  assert (Hend : forall a, e = Some a -> freshAction a).
  { intros a ->. unfold parseEnd in He.
    destruct (0 <=? strings.Index rest "END"); [| discriminate].
    destruct (parseAction _) as [a' | msg] eqn:Ha; cbn [bind] in He; [| discriminate].
    injection He as <- _. now apply parseAction_fresh in Ha. }
  destruct (negb (String.eqb rest' "")).
  - destruct (parseRule rt rest') as [rule | msg] eqn:Hr; cbn [bind] in H; [| discriminate].
    injection H as <-. cbn [Rules Begin End_ List.length].
    split; [lia |]. split; [| now split].
    constructor; [now apply (parseRule_fresh rt rest') | constructor].
  - injection H as <-. cbn [Rules Begin End_ List.length].
    split; [lia |]. split; [constructor | now split].
Qed.

Lemma parsed_program_shape_witness :
  (List.length (Rules sumProgram) <= 1)%nat
  /\ Forall (fun rule => RulePattern rule <> None /\ freshAction (RuleAction rule))
            (Rules sumProgram)
  /\ (forall a, Begin sumProgram = Some a -> freshAction a)
  /\ (forall a, End_ sumProgram = Some a -> freshAction a).
Proof.
  apply (parsed_program_shape sample.runtime "{ sum+=$1 } END { print sum }").
  vm_compute. reflexivity.
Defined.

(** ** One rule over the records *)

Lemma scanLoop_cons_any rt p a line rest ctx out :
  scanLoop rt (line :: rest) [{| RulePattern := p; RuleAction := a |}] ctx out
  = if matches rt p (nextRecord ctx line) then
      let '(a', out', _) := Action_Execute rt a (nextRecord ctx line) out in
      scanLoop rt rest [{| RulePattern := p; RuleAction := a' |}] (nextRecord ctx line) out'
    else scanLoop rt rest [{| RulePattern := p; RuleAction := a |}] (nextRecord ctx line) out.
Proof.
  cbn [scanLoop execRules RulePattern RuleAction]. fold (matches rt p (nextRecord ctx line)).
  destruct (matches rt p (nextRecord ctx line)); [| reflexivity].
  pose proof (Action_Execute_nil_error rt a (nextRecord ctx line) out) as Herr.
  destruct (Action_Execute rt a (nextRecord ctx line) out) as [[a' out'] err].
  cbn [snd] in Herr. subst err. reflexivity.
Qed.

Lemma Action_Execute_printFields rt fields v ctx out :
  v = None \/ v = Some ∅ ->
  Action_Execute rt (printFields fields v) ctx out
  = (printFields fields (Some ∅), (out ++ [printedLine rt fields ctx])%list, None).
Proof.
  intros [-> | ->]; destruct fields; reflexivity.
Qed.

Lemma scanLoop_printFields rt p fields lines :
  forall v ctx out,
    v = None \/ v = Some ∅ ->
    exists v',
      (v' = None \/ v' = Some ∅)
      /\ scanLoop rt lines [{| RulePattern := p; RuleAction := printFields fields v |}] ctx out
         = ([{| RulePattern := p; RuleAction := printFields fields v' |}],
            contextAfter ctx lines,
            (out ++ map (printedLine rt fields)
                        (List.filter (matches rt p) (records ctx lines)))%list,
            None).
Proof.
  induction lines as [| line rest IH]; intros v ctx out Hv.
  - exists v. split; [exact Hv |]. cbn. now rewrite app_nil_r.
  - rewrite scanLoop_cons_any. cbn [records List.filter].
    change (contextAfter ctx (line :: rest)) with (contextAfter (nextRecord ctx line) rest).
    destruct (matches rt p (nextRecord ctx line)).
    + rewrite (Action_Execute_printFields rt fields v _ out Hv).
      destruct (IH (Some ∅) (nextRecord ctx line)
                   (out ++ [printedLine rt fields (nextRecord ctx line)])%list
                   (or_intror eq_refl)) as (v' & Hv' & E).
      exists v'. split; [exact Hv' |]. rewrite E. cbn [map].
      now rewrite <- app_assoc.
    + destruct (IH v (nextRecord ctx line) out Hv) as (v' & Hv' & E).
      exists v'. split; [exact Hv' |]. exact E.
Qed.

(** X2. A rule whose action is a [print], as the parser builds it, writes one
    line for every record its pattern matches, in the order of the input, and
    it always reads an empty variable map: a variable named in the list prints
    as the rendering of 0 on every record (so does NR or NF, which the print
    list takes for variables). *)
Theorem print_rule_output rt p fields lines ctx out :
  (exists v',
      scanLoop rt lines [{| RulePattern := p; RuleAction := printFields fields None |}] ctx out
      = ([{| RulePattern := p; RuleAction := printFields fields v' |}],
         contextAfter ctx lines,
         (out ++ map (printedLine rt fields)
                     (List.filter (matches rt p) (records ctx lines)))%list,
         None))
  /\ (forall name c,
         name <> "" ->
         printedLine rt [{| Field := 0; Var := name |}] c = fmt_Sprint rt 0%float).
Proof.
  split.
  - destruct (scanLoop_printFields rt p fields lines None ctx out (or_introl eq_refl))
      as (v' & _ & E).
    now exists v'.
  - intros name c Hname. cbn [printedLine map strings.Join]. unfold GetValue. cbn [Var].
    destruct (String.eqb_spec name ""); [contradiction | reflexivity].
Qed.

Lemma print_rule_output_witness :
  printedLine sample.runtime [{| Field := 0; Var := "NR" |}] sampleContext = "0".
Proof.
  destruct (print_rule_output sample.runtime None [] [] sampleContext []) as [_ H].
  rewrite H by discriminate. vm_compute. reflexivity.
Defined.

(** ** The program [{print $k}] *)

Lemma FS_nextRecord ctx line : FS (nextRecord ctx line) = FS ctx.
Proof. reflexivity. Qed.

Lemma map_records {A : Type} (g : string -> list string -> A) lines :
  forall ctx,
    map (fun c => g (Line c) (Fields c)) (records ctx lines)
    = map (fun line => g line (splitFields line (FS ctx))) lines.
Proof.
  induction lines as [| line rest IH]; intros ctx; [reflexivity |].
  cbn [records map]. rewrite IH. reflexivity.
Qed.

Lemma GetValue_field rt n ctx vars :
  0 < n ->
  GetValue rt {| Field := n; Var := "" |} ctx vars = nth (Z.to_nat (n - 1)) (Fields ctx) "".
Proof.
  intros Hn. unfold GetValue. cbn [Var Field String.eqb negb].
  destruct (Z.eqb_spec n 0); [lia |].
  replace (0 <? n) with true by (symmetry; apply Z.ltb_lt; lia). cbn [andb].
  destruct (Z.leb_spec n (Z.of_nat (List.length (Fields ctx)))); [reflexivity |].
  symmetry. apply nth_overflow. lia.
Qed.

Lemma trimLeftFuel_id fuel s : unicode.spaceLen s = 0%nat -> strings.trimLeftFuel fuel s = s.
Proof. intros H. destruct fuel; cbn [strings.trimLeftFuel]; [reflexivity | now rewrite H]. Qed.

Lemma stake_app_length s t : stake (String.length s) (s ++ t) = s.
Proof.
  induction s as [| c s IH]; [now destruct t |].
  rewrite app_cons. cbn [String.length stake]. now rewrite IH.
Qed.

Lemma Index_digits_app a p t : forall ds,
  strconv.isDigit a = false ->
  allDigits ds = true ->
  strings.Index t (String a p) = -1 ->
  strings.Index (ds ++ t) (String a p) = -1.
Proof.
  intros ds Ha. induction ds as [| c r IH]; intros Hd Ht; [exact Ht |].
  cbn [allDigits] in Hd. apply andb_true_iff in Hd as [Hc Hr].
  rewrite app_cons. apply Index_cons_miss; [| now apply IH].
  apply Ascii.eqb_neq. intros ->. congruence.
Qed.

(** A text that starts with a plain byte and ends with digits is its own
    [TrimSpace]. *)
Lemma TrimSpace_digits c r ds :
  plainByte c -> allDigits ds = true -> ds <> "" ->
  strings.TrimSpace (String c r ++ ds) = String c r ++ ds.
Proof.
  intros Hc Hd Hne.
  destruct (revOnto_digits_head ds (srev (String c r)) Hd Hne) as (c' & r' & Hrev & Hc').
  rewrite app_cons. apply (TrimSpace_id c _ c' r'); [exact Hc | now apply isDigit_plain |].
  rewrite <- app_cons. unfold srev at 1. rewrite revOnto_app. exact Hrev.
Qed.

Lemma plain_printable c :
  (32 <? code c)%N = true -> (code c <? 128)%N = true -> plainByte c.
Proof.
  intros H1 H2. apply N.ltb_lt in H1, H2. split; [exact H2 |].
  unfold unicode.isAsciiSpace.
  destruct (N.eqb_spec (code c) 9), (N.eqb_spec (code c) 10), (N.eqb_spec (code c) 11),
    (N.eqb_spec (code c) 12), (N.eqb_spec (code c) 13), (N.eqb_spec (code c) 32);
    first [lia | reflexivity].
Qed.

Lemma decimal_zero k : String.eqb (decimal k) "0" = true -> Z.of_nat k < 2 ^ 63 -> k = 0%nat.
Proof.
  intros H Hk. apply String.eqb_eq in H.
  pose proof (Atoi_decimal k Hk) as Ha. rewrite H in Ha.
  change (strconv.Atoi "0") with (Some 0) in Ha. injection Ha as Ha. lia.
Qed.

(** The statement [print $k]. *)
Lemma parsePrint_field k :
  Z.of_nat k < 2 ^ 63 ->
  parsePrint ("print $" ++ decimal k)
  = Ok (PrintStatement (match k with
                        | O => []
                        | S _ => [{| Field := Z.of_nat k; Var := "" |}]
                        end)).
Proof.
  intros Hk. destruct (decimal_digits k) as [Hd Hne].
  pose proof (Atoi_decimal k Hk) as Hatoi.
  pose proof (decimal_zero k) as Hzero.
  assert (H0 : k = 0%nat -> decimal k = "0") by (intros ->; reflexivity).
  set (ds := decimal k) in *.
  unfold parsePrint, strings.TrimPrefix.
  change ("print $" ++ ds) with ("print" ++ (" $" ++ ds)).
  rewrite (HasPrefix_app "print" (" $" ++ ds)).
  change (sdrop (String.length "print") ("print" ++ (" $" ++ ds))) with (" $" ++ ds).
  assert (Htrim : strings.TrimSpace (" $" ++ ds) = "$" ++ ds).
  { unfold strings.TrimSpace.
    assert (Hl : strings.trimLeft (" $" ++ ds) = "$" ++ ds).
    { unfold strings.trimLeft. change (" $" ++ ds) with (String " " ("$" ++ ds)).
      cbn [String.length strings.trimLeftFuel].
      change (unicode.spaceLen (String " " ("$" ++ ds))) with 1%nat.
      cbn [sdrop]. apply trimLeftFuel_id. now apply spaceLen_plain, plain_printable. }
    rewrite Hl.
    pose proof (TrimSpace_digits "$" "" ds (plain_printable "$" eq_refl eq_refl) Hd Hne) as Ht.
    unfold strings.TrimSpace in Ht.
    rewrite trimLeft_id in Ht by now apply spaceLen_plain, plain_printable.
    exact Ht. }
  rewrite Htrim.
  assert (Hempty : String.eqb ("$" ++ ds) "" = false) by reflexivity.
  rewrite Hempty. cbn [orb].
  change (String.eqb ("$" ++ ds) "$0") with (String.eqb ds "0").
  destruct (String.eqb ds "0") eqn:E0.
  - rewrite (Hzero eq_refl Hk). reflexivity.
  - destruct k as [| j]; [rewrite (H0 eq_refl) in E0; discriminate E0 |].
    assert (Hcomma : strings.Index ("$" ++ ds) "," = -1).
    { change ("$" ++ ds) with (String "$" ds).
      apply Index_cons_miss; [reflexivity | now apply Index_digits]. }
    rewrite Split_nonempty_sep by discriminate.
    change (String.length ("$" ++ ds)) with (S (String.length ds)).
    cbn [strings.splitLoop]. rewrite Hcomma. cbn [Z.ltb Z.compare parsePrintFields].
    rewrite (TrimSpace_digits "$" "" ds (plain_printable "$" eq_refl eq_refl) Hd Hne).
    rewrite (HasPrefix_app "$" ds).
    change (sliceFrom ("$" ++ ds) 1) with ds.
    rewrite Hatoi. reflexivity.
Qed.

Lemma parse_print_field rt k :
  Z.of_nat k < 2 ^ 63 ->
  parseProgram rt ("{print $" ++ decimal k ++ "}")
  = Ok {| Begin := None;
          Rules := [{| RulePattern := Some AlwaysPattern;
                       RuleAction :=
                         printFields (match k with
                                      | O => []
                                      | S _ => [{| Field := Z.of_nat k; Var := "" |}]
                                      end) None |}];
          End_ := None |}.
Proof.
  intros Hk. destruct (decimal_digits k) as [Hd Hne].
  pose proof (parsePrint_field k Hk) as Hprint.
  set (ds := decimal k) in *.
  set (T := "{print $" ++ ds ++ "}").
  assert (Hrev : srev T = String "}" (revOnto ds "$ tnirp{")).
  { unfold T, srev. now rewrite !revOnto_app. }
  assert (Htrim : strings.TrimSpace T = T).
  { apply (TrimSpace_id "{" _ "}" _ (plain_printable "{" eq_refl eq_refl)
             (plain_printable "}" eq_refl eq_refl) Hrev). }
  assert (Hend : strings.Index T "END" = -1).
  { unfold T.
    change ("{print $" ++ ds ++ "}")
      with (String "{" (String "p" (String "r" (String "i" (String "n" (String "t"
             (String " " (String "$" (ds ++ "}"))))))))).
    repeat (apply Index_cons_miss; [reflexivity |]).
    now apply Index_digits_app. }
  assert (Hinner : slice T 1 (len T - 1) = "print $" ++ ds).
  { unfold slice, len, T.
    change (sdrop (Z.to_nat 1) ("{print $" ++ ds ++ "}")) with (("print $" ++ ds) ++ "}").
    replace (Z.to_nat (Z.of_nat (String.length ("{print $" ++ ds ++ "}")) - 1 - 1))
      with (String.length ("print $" ++ ds)).
    - apply stake_app_length.
    - rewrite !length_app. cbn [String.length]. lia. }
  assert (Hstmt : strings.TrimSpace ("print $" ++ ds) = "print $" ++ ds).
  { change ("print $" ++ ds) with (String "p" "rint $" ++ ds).
    apply TrimSpace_digits; [now apply plain_printable | exact Hd | exact Hne]. }
  unfold parseProgram. rewrite Htrim.
  assert (Hb : parseBegin T = Ok (None, T)) by reflexivity.
  rewrite Hb. cbn [bind].
  unfold parseEnd. rewrite Hend. cbn [Z.leb Z.compare bind].
  assert (Hnonempty : String.eqb T "" = false) by reflexivity.
  rewrite Hnonempty. cbn [negb].
  unfold parseRule. rewrite Htrim.
  assert (Hslash : strings.HasPrefix T "/" = false) by reflexivity.
  assert (Hnr : strings.HasPrefix T "NR==" = false) by reflexivity.
  rewrite Hslash, Hnr. unfold parseRuleAction. rewrite Hnonempty. cbn [negb].
  unfold parseAction. rewrite Htrim.
  assert (Hopen : strings.HasPrefix T "{" = true) by reflexivity.
  assert (Hclose : strings.HasSuffix T "}" = true)
    by (unfold strings.HasSuffix; rewrite Hrev; reflexivity).
  rewrite Hopen, Hclose. cbn [negb orb]. rewrite Hinner, Hstmt.
  assert (Hne' : String.eqb ("print $" ++ ds) "" = false) by reflexivity.
  rewrite Hne'. cbn [negb].
  unfold parseStatement. rewrite Hstmt.
  assert (Hp : strings.HasPrefix ("print $" ++ ds) "print" = true) by reflexivity.
  rewrite Hp, Hprint. reflexivity.
Qed.

Lemma filter_matches_always rt l :
  List.filter (matches rt (Some AlwaysPattern)) l = l.
Proof. induction l as [| c l IH]; [reflexivity |]. cbn. now rewrite IH. Qed.

(** X3. For every field number [k] of the 64-bit range, the program
    [{print $k}] writes, for each input line in order, its [k]-th field: the
    whole line for [k = 0] and the empty string when the line has fewer than
    [k] fields. A scanner error ends the run with these lines printed. *)
Theorem print_field_program rt k reader fs out :
  Z.of_nat k < 2 ^ 63 ->
  processInput rt reader
               {| FieldSeparator := fs; ProgramText := "{print $" ++ decimal k ++ "}" |} out
  = ((out ++ map (fieldOf fs k) (tokens reader))%list, scanErr reader).
Proof.
  intros Hk. unfold processInput. cbn [ProgramText].
  rewrite (parse_print_field rt k Hk). cbn [Begin Rules End_].
  match goal with
  | |- context [scanLoop rt ?ls [{| RulePattern := ?p; RuleAction := printFields ?f None |}] ?c out] =>
    destruct (scanLoop_printFields rt p f ls None c out (or_introl eq_refl)) as (v' & _ & E)
  end.
  rewrite E, filter_matches_always.
  assert (Hmap : forall ctx,
             FS ctx = fs ->
             map (printedLine rt (match k with
                                  | O => []
                                  | S _ => [{| Field := Z.of_nat k; Var := "" |}]
                                  end))
                 (records ctx (tokens reader))
             = map (fieldOf fs k) (tokens reader)).
  { intros ctx <-. destruct k as [| j].
    - exact (map_records (fun line _ => line) (tokens reader) ctx).
    - transitivity (map (fun c => nth j (Fields c) "") (records ctx (tokens reader))).
      + apply map_ext. intros c. cbn [printedLine map strings.Join].
        rewrite GetValue_field by lia. f_equal. lia.
      + exact (map_records (fun _ fields => nth j fields "") (tokens reader) ctx). }
  rewrite Hmap by reflexivity. destruct (scanErr reader); reflexivity.
Qed.

Lemma print_field_program_witness :
  processInput sample.runtime {| tokens := ["a b c"; "d"; ""]; scanErr := None |}
               {| FieldSeparator := " "; ProgramText := "{print $2}" |} []
  = (["b"; ""; ""], None).
Proof.
  apply (print_field_program sample.runtime 2
           {| tokens := ["a b c"; "d"; ""]; scanErr := None |} " " []).
  lia.
Defined.

(** ** Accumulation *)

Lemma readVar_insert_eq (m : Vars) name x : readVar (<[name := x]> m) name = x.
Proof. unfold readVar, Vars in *. now rewrite lookup_insert_eq. Qed.

Lemma readVar_insert_ne (m : Vars) name other x :
  other <> name -> readVar (<[name := x]> m) other = readVar m other.
Proof. intros H. unfold readVar, Vars in *. now rewrite lookup_insert_ne by congruence. Qed.

Lemma Action_Execute_accumulate rt name expr v ctx out :
  Action_Execute rt (accumulate name expr v) ctx out
  = (accumulate name expr
       (Some (<[name := (readVar (store (accumulate name expr v)) name
                         + Evaluate rt expr ctx (store (accumulate name expr v)))%float]>
                (store (accumulate name expr v)))),
     out, None).
Proof. reflexivity. Qed.



Lemma scanLoop_accumulate_variable rt p name w lines :
  forall v ctx out,
    (forall key, readVar (store (accumulate name (VariableExpression w) v)) key = 0%float) ->
    exists v',
      scanLoop rt lines [{| RulePattern := p;
                            RuleAction := accumulate name (VariableExpression w) v |}] ctx out
      = ([{| RulePattern := p; RuleAction := accumulate name (VariableExpression w) v' |}],
         contextAfter ctx lines, out, None)
      /\ (forall key,
             readVar (store (accumulate name (VariableExpression w) v')) key = 0%float).
Proof.
  induction lines as [| line rest IH]; intros v ctx out Hzero.
  - exists v. now split.
  - rewrite scanLoop_cons_any.
    change (contextAfter ctx (line :: rest)) with (contextAfter (nextRecord ctx line) rest).
    destruct (matches rt p (nextRecord ctx line)).
    + rewrite Action_Execute_accumulate.
      match goal with
      | |- context [accumulate name (VariableExpression w) (Some ?m)] =>
        destruct (IH (Some m) (nextRecord ctx line) out) as (v' & E & Hz)
      end.
      * intros key. cbn [store accumulate Variables Evaluate] in *.
        rewrite (Hzero name), (Hzero w).
        destruct (String.eqb_spec key name) as [-> | Hne].
        -- now rewrite readVar_insert_eq.
        -- rewrite readVar_insert_ne by assumption. apply Hzero.
      * exists v'. now split.
    + destruct (IH v (nextRecord ctx line) out Hzero) as (v' & E & Hz).
      exists v'. now split.
Qed.

(** X5. An accumulation whose right-hand side is not a field reference never
    counts: such a text, a number like 1 included, compiles to a variable,
    and a rule [name += w] leaves every variable, [name] as well, at 0
    whatever the input. *)
Theorem accumulate_of_literal_stays_zero rt :
  (forall exprStr,
      strings.HasPrefix (strings.TrimSpace exprStr) "$" = false ->
      parseExpression exprStr = Ok (VariableExpression (strings.TrimSpace exprStr)))
  /\ (forall p name w lines ctx out,
         exists v',
           scanLoop rt lines [{| RulePattern := p;
                                 RuleAction := accumulate name (VariableExpression w) None |}]
                    ctx out
           = ([{| RulePattern := p;
                  RuleAction := accumulate name (VariableExpression w) v' |}],
              contextAfter ctx lines, out, None)
           /\ (forall key,
                  readVar (store (accumulate name (VariableExpression w) v')) key = 0%float)).
Proof.
  split.
  - intros exprStr H. unfold parseExpression. now rewrite H.
  - intros p name w lines ctx out.
    apply scanLoop_accumulate_variable. intros key. reflexivity.
Qed.

Lemma accumulate_of_literal_stays_zero_witness :
  parseExpression " 1 " = Ok (VariableExpression "1").
Proof.
  destruct (accumulate_of_literal_stays_zero sample.runtime) as [H _].
  apply (H " 1 "). reflexivity.
Defined.

(** ** The command on several files *)

Lemma kthLine_nth j lines :
  (if (1 <=? Z.of_nat j) && (Z.of_nat j <=? Z.of_nat (List.length lines))
   then [nth (j - 1) lines ""] else [])
  = kthLine j lines.
Proof.
  destruct j as [| i]; [reflexivity |]. cbn [kthLine].
  replace (S i - 1)%nat with i by lia.
  replace (1 <=? Z.of_nat (S i)) with true by (symmetry; apply Z.leb_le; lia). cbn [andb].
  destruct (Z.leb_spec (Z.of_nat (S i)) (Z.of_nat (List.length lines))) as [Hle | Hgt].
  - destruct (nth_error lines i) as [line |] eqn:E.
    + now rewrite (nth_error_nth _ _ _ E).
    + apply nth_error_None in E. lia.
  - replace (nth_error lines i) with (@None string); [reflexivity |].
    symmetry. apply nth_error_None. lia.
Qed.

Lemma processInput_NR rt j lines fs out :
  Z.of_nat j < 2 ^ 63 ->
  Z.of_nat (List.length lines) < 2 ^ 63 ->
  processInput rt {| tokens := lines; scanErr := None |}
               {| FieldSeparator := fs; ProgramText := "NR==" ++ decimal j |} out
  = ((out ++ kthLine j lines)%list, None).
Proof.
  intros Hj Hn. unfold processInput. cbn [ProgramText].
  rewrite (parse_NR rt j Hj). cbn [Begin Rules End_ tokens scanErr].
  rewrite scanLoop_lineRule by (cbn [newContext NR]; lia).
  cbn [newContext NR]. rewrite <- kthLine_nth.
  replace (0 <? Z.of_nat j) with (1 <=? Z.of_nat j)
    by (destruct (Z.ltb_spec 0 (Z.of_nat j)), (Z.leb_spec 1 (Z.of_nat j));
        try reflexivity; lia).
  rewrite Z.add_0_l, Z.sub_0_r.
  destruct ((1 <=? Z.of_nat j) && (Z.of_nat j <=? Z.of_nat (List.length lines))) eqn:Hc.
  - apply andb_true_iff in Hc as [Hc1 Hc2]. apply Z.leb_le in Hc1, Hc2.
    unfold Action_Execute.
    cbn [defaultAction Statements Variables execStatements Statement_Execute Println].
    rewrite Nat2Z.id, Line_contextAfter by lia. reflexivity.
  - now rewrite app_nil_r.
Qed.

(** X6. Line numbers restart with every file: the command run with the
    program [NR==j] on files that can be read prints the [j]-th line of each
    file that has one, in the order of the files, and returns no error. *)
Theorem line_numbers_restart_per_file rt stdin open fs j file files out :
  Z.of_nat j < 2 ^ 63 ->
  Forall (readable open) (file :: files) ->
  RunE rt stdin open fs ("NR==" ++ decimal j) (file :: files) out
  = ((out ++ concat (map (fun f => kthLine j (linesOf open f)) (file :: files)))%list, None).
Proof.
  intros Hj Hall. unfold RunE.
  generalize dependent out. generalize dependent (file :: files). clear file files.
  induction l as [| f rest IH]; intros Hall out.
  - cbn. now rewrite app_nil_r.
  - inversion Hall as [| ? ? (r & Hopen & Herr & Hlen) Hrest]; subst.
    cbn [processFiles map concat]. unfold processFile, linesOf at 1. rewrite Hopen.
    destruct r as [lines err]. cbn [tokens scanErr] in *. subst err.
    rewrite (processInput_NR rt j lines fs out Hj Hlen).
    rewrite (IH Hrest). now rewrite <- app_assoc.
Qed.

Lemma line_numbers_restart_per_file_witness :
  RunE sample.runtime {| tokens := []; scanErr := None |} twoFiles " " "NR==2"
       ["a.txt"; "c.txt"; "b.txt"] []
  = (["a2"; "b2"], None).
Proof.
  apply (line_numbers_restart_per_file sample.runtime _ twoFiles " " 2 "a.txt"
           ["c.txt"; "b.txt"] []).
  - lia.
  - repeat (apply List.Forall_cons;
            [eexists; split; [reflexivity | split; [reflexivity | cbn; lia]] |]).
    apply List.Forall_nil.
Defined.

(** X7. A file that cannot be opened stops the command there: the files
    before it have been processed and what they printed stays, the error
    names the file, and no later file is read. The file is opened before the
    program is parsed, so this is the error even for a program that does not
    parse when the missing file comes first. *)
Theorem missing_file_stops_the_command rt stdin open fs program before file after out msg :
  open file = inr msg ->
  Forall (fun f => exists r,
              open f = inl r
              /\ snd (processInput rt r {| FieldSeparator := fs; ProgramText := program |} [])
                 = None) before ->
  RunE rt stdin open fs program (before ++ file :: after) out
  = ((out ++ concat (map (fun f =>
                            match open f with
                            | inl r => fst (processInput rt r
                                              {| FieldSeparator := fs;
                                                 ProgramText := program |} [])
                            | inr _ => []
                            end) before))%list,
     Some ("cannot open '" ++ file ++ "': " ++ msg)).
Proof.
  intros Hmiss Hbefore.
  assert (Hfiles : forall out,
             processFiles rt open (before ++ file :: after)
                          {| FieldSeparator := fs; ProgramText := program |} out
             = ((out ++ concat (map (fun f =>
                                       match open f with
                                       | inl r => fst (processInput rt r
                                                         {| FieldSeparator := fs;
                                                            ProgramText := program |} [])
                                       | inr _ => []
                                       end) before))%list,
                Some ("cannot open '" ++ file ++ "': " ++ msg))).
  { clear out. induction Hbefore as [| f rest (r & Hopen & Herr) Hrest IH]; intros out.
    - cbn [app processFiles map concat]. unfold processFile. rewrite Hmiss.
      now rewrite app_nil_r.
    - cbn [app processFiles map concat]. unfold processFile. rewrite Hopen.
      rewrite processInput_frame, Herr, IH. now rewrite <- app_assoc. }
  unfold RunE. destruct (before ++ file :: after)%list as [| f l] eqn:E.
  - destruct before; discriminate E.
  - apply Hfiles.
Qed.

Lemma missing_file_stops_the_command_witness :
  RunE sample.runtime {| tokens := []; scanErr := None |} twoFiles " " "NR==1"
       (["a.txt"; "b.txt"] ++ "x.txt" :: ["c.txt"]) []
  = (["a1"; "b1"], Some "cannot open 'x.txt': no such file or directory")
  /\ RunE sample.runtime {| tokens := []; scanErr := None |} twoFiles " " "{ print"
          ([] ++ "x.txt" :: ["c.txt"]) []
     = ([], Some "cannot open 'x.txt': no such file or directory").
Proof.
  split.
  - apply (missing_file_stops_the_command sample.runtime _ twoFiles " " "NR==1"
             ["a.txt"; "b.txt"] "x.txt" ["c.txt"] [] "no such file or directory").
    + reflexivity.
    + repeat (apply List.Forall_cons;
              [eexists; split; [reflexivity | vm_compute; reflexivity] |]).
      apply List.Forall_nil.
  - apply (missing_file_stops_the_command sample.runtime _ twoFiles " " "{ print"
             [] "x.txt" ["c.txt"] [] "no such file or directory").
    + reflexivity.
    + apply List.Forall_nil.
Defined.

(** ** Errors while reading, and the END block *)






(** ** The END keyword *)

(** X9. The END block is found by searching the text for the letters END:
    when a program that does not start with BEGIN has them anywhere, in a
    regular expression or a name as well, what follows them is taken for the
    END block, and the program is refused unless that is a block in braces. *)
Theorem end_is_found_by_substring rt prog :
  strings.HasPrefix (strings.TrimSpace prog) "BEGIN" = false ->
  0 <= strings.Index (strings.TrimSpace prog) "END" ->
  strings.HasPrefix
    (strings.TrimSpace
       (sliceFrom (strings.TrimSpace prog) (strings.Index (strings.TrimSpace prog) "END" + 3)))
    "{" = false ->
  parseProgram rt prog = Err "action must be enclosed in braces".
Proof.
  intros Hb Hi Hopen. unfold parseProgram, parseBegin. rewrite Hb. cbn [bind].
  unfold parseEnd.
  replace (0 <=? strings.Index (strings.TrimSpace prog) "END") with true
    by (symmetry; now apply Z.leb_le).
  unfold parseAction. rewrite Hopen. reflexivity.
Qed.

Lemma end_is_found_by_substring_witness :
  parseProgram sample.runtime "/END/" = Err "action must be enclosed in braces"
  /\ parseProgram sample.runtime "/BLEND/ { print $1 }" = Err "action must be enclosed in braces"
  /\ parseProgram sample.runtime "{ print SENDER }" = Err "action must be enclosed in braces".
Proof.
  split; [| split]; apply (end_is_found_by_substring sample.runtime);
    vm_compute; first [reflexivity | discriminate].
Defined.

(** ** The context of a record *)




(** ** White space around a text *)











(** ** Joining and splitting *)

Lemma sdrop_app i : forall t x,
  (i <= String.length t)%nat -> sdrop i (t ++ x) = sdrop i t ++ x.
Proof.
  induction i as [| i IH]; intros t x Hi; [reflexivity |].
  destruct t as [| c t]; [cbn in Hi; lia |].
  rewrite app_cons. cbn [sdrop]. apply IH. cbn in Hi. lia.
Qed.

Lemma app_empty_l (s : string) : "" ++ s = s.
Proof. reflexivity. Qed.

Lemma spaceLen_one_before_space c0 r :
  unicode.isAsciiSpace c0 = false ->
  unicode.spaceLen (String c0 (String " " r)) = 0%nat.
Proof.
  intros H0. unfold unicode.spaceLen, unicode.isSpace2, unicode.isSpace3. rewrite H0.
  destruct (code c0 =? 194)%N, (code c0 =? 225)%N, (code c0 =? 226)%N, (code c0 =? 227)%N;
    destruct r; reflexivity.
Qed.

Lemma spaceLen_two_before_space c0 c1 r :
  unicode.isAsciiSpace c0 = false ->
  unicode.isSpace2 (code c0) (code c1) = false ->
  unicode.spaceLen (String c0 (String c1 (String " " r))) = 0%nat.
Proof.
  intros H0 H1. unfold unicode.spaceLen. rewrite H0, H1. unfold unicode.isSpace3.
  destruct (code c0 =? 225)%N, (code c0 =? 226)%N, (code c0 =? 227)%N,
    (code c1 =? 154)%N, (code c1 =? 128)%N, (code c1 =? 129)%N; reflexivity.
Qed.

Lemma spaceLen_before_space y r :
  y <> "" ->
  unicode.spaceLen (y ++ "") = 0%nat ->
  unicode.spaceLen (y ++ String " " r) = 0%nat.
Proof.
  intros Hne. rewrite app_empty_r.
  destruct y as [| c0 [| c1 [| c2 y]]]; [congruence | | |];
    rewrite ?app_cons, ?app_empty_l; intros H.
  - apply spaceLen_one_before_space. unfold unicode.spaceLen in H.
    destruct (unicode.isAsciiSpace c0); [discriminate | reflexivity].
  - unfold unicode.spaceLen in H.
    destruct (unicode.isAsciiSpace c0) eqn:E0; [discriminate |].
    destruct (unicode.isSpace2 (code c0) (code c1)) eqn:E1; [discriminate |].
    now apply spaceLen_two_before_space.
  - exact H.
Qed.

Lemma isField_followed t r : isField t -> noSpaceIn t (String " " r).
Proof.
  intros [Hne Hno] i Hi. specialize (Hno i Hi).
  rewrite sdrop_app in Hno |- * by lia.
  apply spaceLen_before_space; [| exact Hno].
  intros E. apply (f_equal String.length) in E. rewrite length_sdrop in E. cbn in E. lia.
Qed.

Lemma FieldsOf_Join fs :
  Forall isField fs -> FieldsOf (strings.Join fs " ") fs.
Proof.
  induction 1 as [| t rest Ht Hrest IH].
  - apply fields_end, white_nil.
  - destruct rest as [| t' rest'].
    + cbn [strings.Join].
      rewrite <- (app_empty_r t) at 1.
      apply (fields_token "" t "" []); [apply white_nil | apply Ht | apply Ht | now left |].
      apply fields_end, white_nil.
    + rewrite Join_cons by discriminate.
      apply (fields_token "" t (" " ++ strings.Join (t' :: rest') " ") (t' :: rest')).
      * apply white_nil.
      * apply Ht.
      * now apply isField_followed.
      * right. discriminate.
      * apply (FieldsOf_space " "); [split; [discriminate | reflexivity] | exact IH].
Qed.

Lemma Fields_are_fields line : Forall isField (strings.Fields line).
Proof.
  pose proof (Fields_spec line) as H.
  induction H as [w Hw | w t rest fs Hw Ht Hno Hrest Hfs IH]; constructor; [| exact IH].
  split; [exact Ht |].
  intros i Hi. rewrite app_empty_r.
  destruct (unicode.spaceLen (sdrop i t)) as [| k] eqn:E; [reflexivity | exfalso].
  pose proof (spaceLen_stake _ _ E) as Hc.
  pose proof (spaceLen_app _ (sdrop (S k) (sdrop i t) ++ rest) Hc) as Happ.
  rewrite <- app_assoc_s, stake_sdrop, <- sdrop_app, (Hno i Hi) in Happ by lia.
  destruct Hc as [Hne _]. destruct (stake (S k) (sdrop i t)); [congruence | discriminate].
Qed.

(** X12. With the default separator, fields joined by single spaces, as a
    [print] list writes them, split into the same fields again, provided each
    is a field (not empty and without white space); so splitting a line,
    joining its fields and splitting again changes nothing: the fields of a
    line are fields. *)
Theorem join_then_split_fields :
  (forall fs, Forall isField fs -> splitFields (strings.Join fs " ") " " = fs)
  /\ (forall line, Forall isField (splitFields line " "))
  /\ (forall line,
         splitFields (strings.Join (splitFields line " ") " ") " " = splitFields line " ").
Proof.
  assert (H1 : forall fs, Forall isField fs -> splitFields (strings.Join fs " ") " " = fs).
  { intros fs Hfs. change (splitFields (strings.Join fs " ") " ")
      with (strings.Fields (strings.Join fs " ")).
    symmetry. now apply FieldsOf_unique, FieldsOf_Join. }
  split; [exact H1 |]. split.
  - intros line. apply Fields_are_fields.
  - intros line. apply H1. apply Fields_are_fields.
Qed.

Lemma join_then_split_fields_witness :
  splitFields (strings.Join ["ab"; "c"; "d,e"] " ") " " = ["ab"; "c"; "d,e"].
Proof.
  destruct join_then_split_fields as [H _]. apply H.
  repeat (apply List.Forall_cons;
          [split; [discriminate |];
           intros i Hi; cbn in Hi;
           do 3 (destruct i as [| i]; [reflexivity |]); lia |]).
  apply List.Forall_nil.
Defined.

(** ** The BEGIN block *)



(** ** Blank lines *)

Lemma FieldsOf_nil line : FieldsOf line [] -> whiteRun line.
Proof. intros H. inversion H. assumption. Qed.

(** X14. With the default separator a line has no field exactly when it is
    made of white space only (the empty line included): then NF is 0 and
    every [$k] with [k > 0] is empty. *)
Theorem blank_line_has_no_fields line :
  (splitFields line " " = [] <-> whiteRun line)
  /\ (whiteRun line ->
      forall ctx,
        FS ctx = " " ->
        NF (nextRecord ctx line) = 0
        /\ forall rt k vars,
             0 < k -> GetValue rt {| Field := k; Var := "" |} (nextRecord ctx line) vars = "").
Proof.
  assert (H : splitFields line " " = [] <-> whiteRun line).
  { change (splitFields line " ") with (strings.Fields line). split.
    - intros E. apply FieldsOf_nil. rewrite <- E. apply Fields_spec.
    - intros Hw. symmetry. now apply FieldsOf_unique, fields_end. }
  split; [exact H |].
  intros Hw ctx Hfs. apply H in Hw.
  split.
  - cbn [nextRecord NF]. now rewrite Hfs, Hw.
  - intros rt k vars Hk. rewrite GetValue_field by exact Hk.
    cbn [nextRecord Fields]. rewrite Hfs, Hw. now destruct (Z.to_nat (k - 1)).
Qed.

Lemma blank_line_has_no_fields_witness :
  splitFields "  " " " = []
  /\ NF (nextRecord sampleContext "  ") = 0.
Proof.
  assert (Hw : whiteRun "  ").
  { apply (white_cons " " " "); [split; [discriminate | reflexivity] |].
    apply (white_cons " " ""); [split; [discriminate | reflexivity] | apply white_nil]. }
  destruct (blank_line_has_no_fields "  ") as [Hiff Hnf].
  split.
  - apply Hiff. exact Hw.
  - apply (Hnf Hw sampleContext). reflexivity.
Defined.
